(** * Context Bridge capture engine: a shallow embedding of
      [context-bridge/capture.py] and [context-bridge/models.py].

    The browser driver (Playwright) is an external collaborator: every
    awaited driver call either returns a value or raises, and moves the
    browser to a new state.  The engine is embedded over an arbitrary
    such driver, in a small state-and-exception monad that also records
    the driver calls and log lines a method produces. *)

From Stdlib Require Import List String Ascii ZArith Lia Bool Arith.
Import ListNotations.
Open Scope Z_scope.
Open Scope string_scope.
Set Warnings "-register-all".

(* ================================================================= *)
(** ** Python values used by the engine *)

(** Exceptions the embedded code can meet. *)
Inductive Exc : Type :=
| DriverError (msg : string)      (* playwright Error / TimeoutError *)
| ValidationError (field : string) (* pydantic *)
| AttributeError (msg : string)
| KeyError (key : string)
| TypeError (msg : string).

(** [str(e)] *)
Definition exc_str (e : Exc) : string :=
  match e with
  | DriverError m => m
  | ValidationError f => "validation error for " ++ f
  | AttributeError m => m
  | KeyError k => "'" ++ k ++ "'"
  | TypeError m => m
  end.

Inductive Res (A : Type) : Type :=
| Ok (a : A)
| Raise (e : Exc).
Arguments Ok {A} a.
Arguments Raise {A} e.

Definition is_ok {A} (r : Res A) : bool :=
  match r with Ok _ => true | Raise _ => false end.

Definition res_bind {A B} (r : Res A) (f : A -> Res B) : Res B :=
  match r with Ok a => f a | Raise e => Raise e end.

(** Truthiness of [Optional[str]], [Optional[int]], [Optional[Dict]]. *)
Definition truthy_str (o : option string) : bool :=
  match o with
  | Some s => negb (String.eqb s EmptyString)
  | None => false
  end.

Definition truthy_int (o : option Z) : bool :=
  match o with
  | Some z => negb (Z.eqb z 0)
  | None => false
  end.

Definition truthy_dict {V} (o : option (list (string * V))) : bool :=
  match o with
  | Some (_ :: _) => true
  | _ => false
  end.

Definition opt_str (o : option string) : string :=
  match o with Some s => s | None => EmptyString end.

(** [d.get(k)] on a dict kept as an association list. *)
Fixpoint dict_get {V} (d : list (string * V)) (k : string) : option V :=
  match d with
  | [] => None
  | (k', v) :: d' => if String.eqb k' k then Some v else dict_get d' k
  end.

(** [d.get(k, default)] *)
Definition dict_get_default {V} (d : list (string * V)) (k : string) (dflt : V) : V :=
  match dict_get d k with Some v => v | None => dflt end.

(** [d[k]] *)
Definition dict_index {V} (d : list (string * V)) (k : string) : Res V :=
  match dict_get d k with Some v => Ok v | None => Raise (KeyError k) end.

(** Values of [Dict[str, Any]] fields. *)
Inductive Json : Type :=
| JNull
| JBool (b : bool)
| JInt (z : Z)
| JStr (s : string)
| JList (l : list Json)
| JDict (d : list (string * Json)).

(* ================================================================= *)
(** ** Python strings (ASCII) *)


Definition is_lower (c : ascii) : bool :=
  (97 <=? nat_of_ascii c)%nat && (nat_of_ascii c <=? 122)%nat.

Definition upper_char (c : ascii) : ascii :=
  if is_lower c then ascii_of_nat (nat_of_ascii c - 32) else c.

(** [s.upper()], for an [ascii_only] string *)
Fixpoint py_upper (s : string) : string :=
  match s with
  | EmptyString => EmptyString
  | String c s' => String (upper_char c) (py_upper s')
  end.

(** [c.isspace()] *)
Definition is_space (c : ascii) : bool :=
  let n := nat_of_ascii c in
  ((9 <=? n)%nat && (n <=? 13)%nat) || ((28 <=? n)%nat && (n <=? 32)%nat).

Fixpoint py_lstrip (s : string) : string :=
  match s with
  | EmptyString => EmptyString
  | String c s' => if is_space c then py_lstrip s' else s
  end.

Fixpoint py_rstrip (s : string) : string :=
  match s with
  | EmptyString => EmptyString
  | String c s' =>
      let r := py_rstrip s' in
      if is_space c && String.eqb r EmptyString then EmptyString else String c r
  end.

(** [s.strip()] *)
Definition py_strip (s : string) : string := py_rstrip (py_lstrip s).

Definition hex_digit (n : nat) : ascii :=
  match String.get n "0123456789abcdef" with Some c => c | None => "0"%char end.

Fixpoint contains_char (c : ascii) (s : string) : bool :=
  match s with
  | EmptyString => false
  | String c' s' => Ascii.eqb c c' || contains_char c s'
  end.

Fixpoint repr_body (q : ascii) (s : string) : string :=
  match s with
  | EmptyString => EmptyString
  | String c s' =>
      let n := nat_of_ascii c in
      (if Ascii.eqb c q || Ascii.eqb c "\"%char then String "\"%char (String c EmptyString)
       else if (n =? 10)%nat then "\n"
       else if (n =? 13)%nat then "\r"
       else if (n =? 9)%nat then "\t"
       else if (n <? 32)%nat || (n =? 127)%nat then
         String "\"%char (String "x"%char
           (String (hex_digit (n / 16)) (String (hex_digit (n mod 16)) EmptyString)))
       else String c EmptyString) ++ repr_body q s'
  end.

(** [repr(s)] of a [str] *)
Definition py_repr (s : string) : string :=
  let dq := ascii_of_nat 34 in
  let q := if contains_char "'"%char s && negb (contains_char dq s)
           then dq else "'"%char in
  String q (repr_body q s ++ String q EmptyString).

(** [base64.b64encode(b).decode('utf-8')] *)
Definition b64_char (n : nat) : ascii :=
  match String.get n
    "ABCDEFGHIJKLMNOPQRSTUVWXYZabcdefghijklmnopqrstuvwxyz0123456789+/" with
  | Some c => c
  | None => "="%char
  end.

Fixpoint b64encode (s : string) : string :=
  match s with
  | EmptyString => EmptyString
  | String a EmptyString =>
      let x := nat_of_ascii a in
      String (b64_char (x / 4)) (String (b64_char ((x mod 4) * 16)) "==")
  | String a (String b EmptyString) =>
      let x := nat_of_ascii a in
      let y := nat_of_ascii b in
      String (b64_char (x / 4))
        (String (b64_char ((x mod 4) * 16 + y / 16))
          (String (b64_char ((y mod 16) * 4)) "="))
  | String a (String b (String c rest)) =>
      let x := nat_of_ascii a in
      let y := nat_of_ascii b in
      let z := nat_of_ascii c in
      String (b64_char (x / 4))
        (String (b64_char ((x mod 4) * 16 + y / 16))
          (String (b64_char ((y mod 16) * 4 + z / 64))
            (String (b64_char (z mod 64)) (b64encode rest))))
  end.

(** [str(n)] of a non-negative [int] *)
Definition digit_char (n : nat) : ascii := ascii_of_nat (48 + n).

Fixpoint str_of_nat_fuel (fuel n : nat) (acc : string) : string :=
  match fuel with
  | O => acc
  | S fuel' =>
      let acc' := String (digit_char (n mod 10)) acc in
      if (n <? 10)%nat then acc' else str_of_nat_fuel fuel' (n / 10) acc'
  end.

Definition str_of_nat (n : nat) : string := str_of_nat_fuel (S n) n EmptyString.

(* ================================================================= *)
(** ** The parsed document (BeautifulSoup) *)

(** An attribute value: a string, or a list for the multi-valued
    attributes ([class], [rel], ...). *)
Inductive AttrVal : Type :=
| AStr (s : string)
| AList (l : list string).

(** The subclasses of [NavigableString] that the parser gives to the
    strings that are not plain text. *)
Inductive StrClass : Type :=
| CData | Comment | Declaration | Doctype | ProcessingInstruction
| Script | Stylesheet | TemplateString | RubyTextString | RubyParenthesisString.

(** A node of the parsed document: a tag, a plain [NavigableString], or
    a string of one of its subclasses (a comment, the text of a
    [script] or [style] tag, ...). *)
Inductive Node : Type :=
| Tag (name : string) (attrs : list (string * AttrVal)) (children : list Node)
| NavStr (s : string)
| SpecialStr (cls : StrClass) (s : string).

Definition node_name (n : Node) : string :=
  match n with Tag nm _ _ => nm | _ => EmptyString end.

Definition node_attrs (n : Node) : list (string * AttrVal) :=
  match n with Tag _ a _ => a | _ => [] end.

Definition node_children (n : Node) : list Node :=
  match n with Tag _ _ cs => cs | _ => [] end.

(** The tag [n] (if it is one) followed by the tags below it, in
    document order. *)
Fixpoint tags_from (n : Node) : list Node :=
  match n with
  | Tag _ _ cs => n :: flat_map tags_from cs
  | _ => []
  end.

(** [n.find_all()] : the tags below [n]. *)
Definition descendants (n : Node) : list Node :=
  flat_map tags_from (node_children n).

Definition name_in (names : list string) (n : Node) : bool :=
  existsb (String.eqb (node_name n)) names.

(** [n.find_all(names)] *)
Definition find_all (n : Node) (names : list string) : list Node :=
  filter (name_in names) (descendants n).

(** [n.get(key)] *)
Definition node_get (n : Node) (key : string) : option AttrVal :=
  dict_get (node_attrs n) key.

(** [n.find_all(name, href=True)] *)
Definition find_all_href (n : Node) (name : string) : list Node :=
  filter (fun t => match node_get t "href" with Some _ => true | None => false end)
         (find_all n [name]).

Definition str_class_eqb (a b : StrClass) : bool :=
  match a, b with
  | CData, CData | Comment, Comment | Declaration, Declaration | Doctype, Doctype
  | ProcessingInstruction, ProcessingInstruction | Script, Script
  | Stylesheet, Stylesheet | TemplateString, TemplateString
  | RubyTextString, RubyTextString
  | RubyParenthesisString, RubyParenthesisString => true
  | _, _ => false
  end.

(** [tag.interesting_string_types]: the class of strings that make up
    the text of a tag of this name.  [None] is the default, plain
    strings and CDATA sections; the tags that hold a special kind of
    string count only that kind. *)
Definition interesting_string_types (name : string) : option StrClass :=
  if String.eqb name "rt" then Some RubyTextString
  else if String.eqb name "rp" then Some RubyParenthesisString
  else if String.eqb name "style" then Some Stylesheet
  else if String.eqb name "script" then Some Script
  else if String.eqb name "template" then Some TemplateString
  else None.

(** The strings at or below [n] whose class is exactly one of [types],
    in document order: comments, and under an ordinary tag the text of
    scripts and style sheets, are passed over. *)
Fixpoint strings_from (types : option StrClass) (n : Node) : list string :=
  match n with
  | NavStr s => match types with None => [s] | Some _ => [] end
  | SpecialStr cls s =>
      match types with
      | None => if str_class_eqb cls CData then [s] else []
      | Some t => if str_class_eqb cls t then [s] else []
      end
  | Tag _ _ cs => flat_map (strings_from types) cs
  end.

(** [n.get_text(strip=True)] *)
Definition get_text_strip (n : Node) : string :=
  String.concat EmptyString
    (filter (fun s => negb (String.eqb s EmptyString))
       (map py_strip (strings_from (interesting_string_types (node_name n)) n))).

(** [str(v)] of an attribute value *)
Definition attr_str (v : AttrVal) : string :=
  match v with
  | AStr s => s
  | AList l => "[" ++ String.concat ", " (map py_repr l) ++ "]"
  end.

Definition attr_truthy (o : option AttrVal) : bool :=
  match o with
  | Some (AStr s) => negb (String.eqb s EmptyString)
  | Some (AList (_ :: _)) => true
  | _ => false
  end.

(** [v == s] for a string literal [s] *)
Definition attr_is (o : option AttrVal) (s : string) : bool :=
  match o with
  | Some (AStr s') => String.eqb s' s
  | _ => false
  end.

(** pydantic: a value offered to an [Optional[str]] field. *)
Definition as_opt_str (field : string) (o : option AttrVal) : Res (option string) :=
  match o with
  | None => Ok None
  | Some (AStr s) => Ok (Some s)
  | Some (AList _) => Raise (ValidationError field)
  end.

(** pydantic: a value offered to a [str] field. *)
Definition as_str (field : string) (o : option AttrVal) : Res string :=
  match o with
  | Some (AStr s) => Ok s
  | _ => Raise (ValidationError field)
  end.

(** pydantic: [n.get('class', [])] offered to a [List[str]] field. *)
Definition as_str_list (field : string) (o : option AttrVal) : Res (list string) :=
  match o with
  | None => Ok []
  | Some (AList l) => Ok l
  | Some (AStr _) => Raise (ValidationError field)
  end.

(** [f"#{n.get('id')}" if n.get('id') else None] *)
Definition id_selector (n : Node) : option string :=
  if attr_truthy (node_get n "id")
  then Some ("#" ++ match node_get n "id" with Some v => attr_str v | None => EmptyString end)
  else None.

(** [{k: str(v) for k, v in n.attrs.items()}] *)
Definition attrs_str (n : Node) : list (string * string) :=
  map (fun kv => (fst kv, attr_str (snd kv))) (node_attrs n).

(* ================================================================= *)
(** ** models.py *)

Record InteractionAction : Type := mkInteractionAction {
  ia_type : string;
  ia_selector : option string;
  ia_value : option string;
  ia_coordinates : option (list (string * Z));
  ia_duration : option Z;
  ia_url : option string
}.

Record InteractionResult : Type := mkInteractionResult {
  ir_action : string;
  ir_success : bool;
  ir_error : option string;
  ir_result_data : option Json;
  ir_timestamp : Z
}.

Definition set_success (b : bool) (r : InteractionResult) : InteractionResult :=
  mkInteractionResult (ir_action r) b (ir_error r) (ir_result_data r) (ir_timestamp r).

Definition set_error (e : option string) (r : InteractionResult) : InteractionResult :=
  mkInteractionResult (ir_action r) (ir_success r) e (ir_result_data r) (ir_timestamp r).

Record DOMElement : Type := mkDOMElement {
  de_tag : string;
  de_id : option string;
  de_classes : list string;
  de_text : option string;
  de_attributes : list (string * string);
  de_children_count : nat;
  de_xpath : option string;
  de_selector : option string
}.

Definition set_selector (sel : option string) (e : DOMElement) : DOMElement :=
  mkDOMElement (de_tag e) (de_id e) (de_classes e) (de_text e) (de_attributes e)
               (de_children_count e) (de_xpath e) sel.

Record FormElement : Type := mkFormElement {
  fe_action : option string;
  fe_method : string;
  fe_inputs : list DOMElement;
  fe_submit_buttons : list DOMElement;
  fe_selector : option string
}.

Record InteractiveElement : Type := mkInteractiveElement {
  ie_type : string;
  ie_text : option string;
  ie_href : option string;
  ie_selector : string;
  ie_clickable : bool;
  ie_focusable : bool;
  ie_visible : bool
}.

(** Times are kept as integer clock ticks. *)
Record PerformanceMetrics : Type := mkPerformanceMetrics {
  pm_load_time : Z;
  pm_first_contentful_paint : option Z;
  pm_largest_contentful_paint : option Z;
  pm_dom_content_loaded : option Z;
  pm_errors : list string;
  pm_warnings : list string
}.

Record FrontendContext : Type := mkFrontendContext {
  fc_timestamp : Z;
  fc_url : string;
  fc_title : string;
  fc_viewport : list (string * Z);
  fc_screenshot : option string;
  fc_elements : list DOMElement;
  fc_forms : list FormElement;
  fc_buttons : list DOMElement;
  fc_links : list DOMElement;
  fc_inputs : list DOMElement;
  fc_interactive : list InteractiveElement;
  fc_interactions : Json;
  fc_performance : option PerformanceMetrics;
  fc_accessibility : Json;
  fc_responsive : Json;
  fc_raw_html : option string;
  fc_console_logs : list string
}.

(** [FrontendContext(timestamp=, url=, title=, viewport=, console_logs=)]:
    every other field at its declared default. *)
Definition new_context (ts : Z) (url title : string) (vp : list (string * Z))
    (console_logs : list string) : FrontendContext :=
  mkFrontendContext ts url title vp None [] [] [] [] [] [] (JDict []) None
                    (JDict []) (JDict []) None console_logs.

Definition set_screenshot (v : option string) (c : FrontendContext) : FrontendContext :=
  mkFrontendContext (fc_timestamp c) (fc_url c) (fc_title c) (fc_viewport c)
    v (fc_elements c) (fc_forms c) (fc_buttons c) (fc_links c)
    (fc_inputs c) (fc_interactive c) (fc_interactions c) (fc_performance c)
    (fc_accessibility c) (fc_responsive c) (fc_raw_html c) (fc_console_logs c).

Definition set_elements (v : list DOMElement) (c : FrontendContext) : FrontendContext :=
  mkFrontendContext (fc_timestamp c) (fc_url c) (fc_title c) (fc_viewport c)
    (fc_screenshot c) v (fc_forms c) (fc_buttons c) (fc_links c)
    (fc_inputs c) (fc_interactive c) (fc_interactions c) (fc_performance c)
    (fc_accessibility c) (fc_responsive c) (fc_raw_html c) (fc_console_logs c).

Definition set_forms (v : list FormElement) (c : FrontendContext) : FrontendContext :=
  mkFrontendContext (fc_timestamp c) (fc_url c) (fc_title c) (fc_viewport c)
    (fc_screenshot c) (fc_elements c) v (fc_buttons c) (fc_links c)
    (fc_inputs c) (fc_interactive c) (fc_interactions c) (fc_performance c)
    (fc_accessibility c) (fc_responsive c) (fc_raw_html c) (fc_console_logs c).

Definition set_buttons (v : list DOMElement) (c : FrontendContext) : FrontendContext :=
  mkFrontendContext (fc_timestamp c) (fc_url c) (fc_title c) (fc_viewport c)
    (fc_screenshot c) (fc_elements c) (fc_forms c) v (fc_links c)
    (fc_inputs c) (fc_interactive c) (fc_interactions c) (fc_performance c)
    (fc_accessibility c) (fc_responsive c) (fc_raw_html c) (fc_console_logs c).

Definition set_links (v : list DOMElement) (c : FrontendContext) : FrontendContext :=
  mkFrontendContext (fc_timestamp c) (fc_url c) (fc_title c) (fc_viewport c)
    (fc_screenshot c) (fc_elements c) (fc_forms c) (fc_buttons c) v
    (fc_inputs c) (fc_interactive c) (fc_interactions c) (fc_performance c)
    (fc_accessibility c) (fc_responsive c) (fc_raw_html c) (fc_console_logs c).

Definition set_inputs (v : list DOMElement) (c : FrontendContext) : FrontendContext :=
  mkFrontendContext (fc_timestamp c) (fc_url c) (fc_title c) (fc_viewport c)
    (fc_screenshot c) (fc_elements c) (fc_forms c) (fc_buttons c) (fc_links c)
    v (fc_interactive c) (fc_interactions c) (fc_performance c)
    (fc_accessibility c) (fc_responsive c) (fc_raw_html c) (fc_console_logs c).

Definition set_interactive (v : list InteractiveElement) (c : FrontendContext) : FrontendContext :=
  mkFrontendContext (fc_timestamp c) (fc_url c) (fc_title c) (fc_viewport c)
    (fc_screenshot c) (fc_elements c) (fc_forms c) (fc_buttons c) (fc_links c)
    (fc_inputs c) v (fc_interactions c) (fc_performance c)
    (fc_accessibility c) (fc_responsive c) (fc_raw_html c) (fc_console_logs c).

Definition set_interactions (v : Json) (c : FrontendContext) : FrontendContext :=
  mkFrontendContext (fc_timestamp c) (fc_url c) (fc_title c) (fc_viewport c)
    (fc_screenshot c) (fc_elements c) (fc_forms c) (fc_buttons c) (fc_links c)
    (fc_inputs c) (fc_interactive c) v (fc_performance c)
    (fc_accessibility c) (fc_responsive c) (fc_raw_html c) (fc_console_logs c).

Definition set_performance (v : option PerformanceMetrics) (c : FrontendContext) : FrontendContext :=
  mkFrontendContext (fc_timestamp c) (fc_url c) (fc_title c) (fc_viewport c)
    (fc_screenshot c) (fc_elements c) (fc_forms c) (fc_buttons c) (fc_links c)
    (fc_inputs c) (fc_interactive c) (fc_interactions c) v
    (fc_accessibility c) (fc_responsive c) (fc_raw_html c) (fc_console_logs c).

Definition set_accessibility (v : Json) (c : FrontendContext) : FrontendContext :=
  mkFrontendContext (fc_timestamp c) (fc_url c) (fc_title c) (fc_viewport c)
    (fc_screenshot c) (fc_elements c) (fc_forms c) (fc_buttons c) (fc_links c)
    (fc_inputs c) (fc_interactive c) (fc_interactions c) (fc_performance c)
    v (fc_responsive c) (fc_raw_html c) (fc_console_logs c).

Definition set_responsive (v : Json) (c : FrontendContext) : FrontendContext :=
  mkFrontendContext (fc_timestamp c) (fc_url c) (fc_title c) (fc_viewport c)
    (fc_screenshot c) (fc_elements c) (fc_forms c) (fc_buttons c) (fc_links c)
    (fc_inputs c) (fc_interactive c) (fc_interactions c) (fc_performance c)
    (fc_accessibility c) v (fc_raw_html c) (fc_console_logs c).

Definition set_raw_html (v : option string) (c : FrontendContext) : FrontendContext :=
  mkFrontendContext (fc_timestamp c) (fc_url c) (fc_title c) (fc_viewport c)
    (fc_screenshot c) (fc_elements c) (fc_forms c) (fc_buttons c) (fc_links c)
    (fc_inputs c) (fc_interactive c) (fc_interactions c) (fc_performance c)
    (fc_accessibility c) (fc_responsive c) v (fc_console_logs c).

(** The attributes of a [FrontendCapture] object: [true] when set,
    [false] when still [None]. *)
Record FrontendCapture : Type := mkFrontendCapture {
  playwright : bool;
  browser : bool;
  context : bool
}.

(* ================================================================= *)
(** ** The browser driver *)

(** An element handle returned by a live query. *)
Definition Handle := nat.

(** What [page.evaluate] of the performance script hands back. *)
Record PerfData : Type := mkPerfData {
  domContentLoaded : option Z;
  firstContentfulPaint : option Z
}.

(** What [page.content()] yields: the markup, and the tree that
    BeautifulSoup's html.parser builds from it. *)
Record PageContent : Type := mkPageContent {
  pc_html : string;
  pc_soup : Node
}.

(** The facts of the live document that the accessibility script reads. *)
Record ImgEl : Type := mkImgEl {
  img_alt : string;                  (* img.alt *)
  img_aria_label : option string     (* img.getAttribute('aria-label') *)
}.

Record CtlEl : Type := mkCtlEl {
  ctl_tagName : string;              (* in lower case *)
  ctl_id : string;                   (* input.id *)
  ctl_label : option bool;
    (* document.querySelector(`label[for="${id}"]`): found or not;
       [None] when the selector is rejected with a SyntaxError *)
  ctl_aria_label : option string
}.

Record A11yDoc : Type := mkA11yDoc {
  doc_images : list ImgEl;           (* querySelectorAll('img') *)
  doc_inputs : list CtlEl;           (* querySelectorAll('input, textarea, select') *)
  doc_headings : list nat            (* levels of h1..h6, in document order *)
}.

(** The awaited driver calls made by capture.py. *)
Inductive Call : Type :=
| NewPage
| SetViewportSize (viewport : list (string * Z))
| Goto (url : string) (timeout : option Z)
| PageTitle
| PageScreenshot
| PageContentCall
| QuerySelectorAll (selector : string)
| ElemTextContent (h : Handle)
| ElemIsVisible (h : Handle)
| ElemGetAttribute (h : Handle) (name : string)
| EvalPerformance
| EvalAccessibility
| EvalOverflow
| EvalScrollHeight
| EvalClientHeight
| PageClose
| Click (selector : string) (timeout : Z)
| MouseClick (x y : Z)
| Fill (selector value : string) (timeout : Z)
| WaitForTimeout (ms : Z)
| MouseWheel (x y : Z)
| KeyboardPress (key : string)
| ContextClose
| BrowserClose
| PlaywrightStop.

Definition resp (c : Call) : Type :=
  match c with
  | PageTitle => string
  | PageScreenshot => string
  | PageContentCall => PageContent
  | QuerySelectorAll _ => list Handle
  | ElemTextContent _ => option string
  | ElemIsVisible _ => bool
  | ElemGetAttribute _ _ => option string
  | EvalPerformance => PerfData
  | EvalAccessibility => A11yDoc
  | EvalOverflow => bool
  | EvalScrollHeight => Z
  | EvalClientHeight => Z
  | _ => unit
  end.

Record Driver : Type := mkDriver {
  W : Type;                                       (* browser states *)
  drive : forall c : Call, W -> Res (resp c) * W; (* an awaited call *)
  now : W -> Z;                                   (* the clock *)
  page_url : W -> string;                         (* page.url *)
  page_viewport_size : W -> option (list (string * Z));   (* page.viewport_size *)
  console : W -> list (string * string)
    (* (type, text) of the console messages the page has emitted *)
}.

Inductive Level : Type := DEBUG | INFO | ERROR.

Inductive Event : Type :=
| ECall (c : Call) (ok : bool)
| ELog (lvl : Level) (msg : string).

(* ================================================================= *)
(** ** Building element records from parsed nodes *)

Definition important_tags : list string :=
  [ "h1"; "h2"; "h3"; "h4"; "h5"; "h6"; "p"; "div"; "span"; "section";
    "article"; "nav"; "header"; "footer"; "main"; "aside";
    "button"; "input"; "textarea"; "select"; "option"; "label"; "form";
    "a"; "img"; "video"; "audio"; "canvas"; "svg";
    "ul"; "ol"; "li"; "table"; "thead"; "tbody"; "tr"; "td"; "th";
    "blockquote"; "pre"; "code"; "strong"; "em"; "small"; "mark"; "del";
    "ins"; "sub"; "sup" ].

(** The [DOMElement(...)] built for one node in [_extract_dom_elements],
    followed by the selector synthesis. *)
Definition dom_element_of (tag_name : string) (element : Node) : Res DOMElement :=
  res_bind (as_opt_str "id" (node_get element "id")) (fun id =>
  res_bind (as_str_list "classes" (node_get element "class")) (fun classes =>
  let text := if negb (String.eqb (get_text_strip element) EmptyString)
              then Some (substring 0 200 (get_text_strip element)) else None in
  let attributes :=
    map (fun kv => (fst kv, attr_str (snd kv)))
        (filter (fun kv => negb (String.eqb (fst kv) "class")) (node_attrs element)) in
  let elem := mkDOMElement tag_name id classes text attributes
                           (List.length (descendants element)) None None in
  Ok (if truthy_str id then set_selector (Some ("#" ++ opt_str id)) elem
      else match classes with
           | _ :: _ => set_selector (Some (tag_name ++ "." ++ String.concat "." classes)) elem
           | [] => elem
           end))).

(** [m(x)] for each [x], stopping at the first exception. *)
Fixpoint res_map {A B} (f : A -> Res B) (xs : list A) : Res (list B) :=
  match xs with
  | [] => Ok []
  | x :: xs' =>
      res_bind (f x) (fun y => res_bind (res_map f xs') (fun ys => Ok (y :: ys)))
  end.

(** One entry of a form's [inputs]. *)
Definition form_input_of (input_elem : Node) : Res DOMElement :=
  res_bind (as_opt_str "id" (node_get input_elem "id")) (fun id =>
  Ok (mkDOMElement (node_name input_elem) id [] None (attrs_str input_elem) 0 None
                   (id_selector input_elem))).

(** [button.get_text(strip=True) or button.get('value')] *)
Definition text_or_value (button : Node) : Res (option string) :=
  if negb (String.eqb (get_text_strip button) EmptyString)
  then Ok (Some (get_text_strip button))
  else as_opt_str "text" (node_get button "value").

Definition is_submit_control (button : Node) : bool :=
  attr_is (node_get button "type") "submit"
  || attr_is (node_get button "type") "button"
  || String.eqb (node_name button) "button".

(** One entry of a form's [submit_buttons]. *)
Definition form_button_of (button : Node) : Res DOMElement :=
  res_bind (text_or_value button) (fun text =>
  Ok (mkDOMElement (node_name button) None [] text (attrs_str button) 0 None None)).

(** [form.get('method', 'GET').upper()] *)
Definition form_method (form : Node) : Res string :=
  match node_get form "method" with
  | None => Ok (py_upper "GET")
  | Some (AStr s) => Ok (py_upper s)
  | Some (AList _) => Raise (AttributeError "'list' object has no attribute 'upper'")
  end.

(** The body of [for form in soup.find_all('form')], up to the append. *)
Definition form_element_of (form : Node) : Res FormElement :=
  res_bind (res_map form_input_of (find_all form ["input"; "textarea"; "select"])) (fun inputs =>
  res_bind (res_map form_button_of
              (filter is_submit_control (find_all form ["button"; "input"]))) (fun submit_buttons =>
  res_bind (form_method form) (fun method =>
  res_bind (as_opt_str "action" (node_get form "action")) (fun action =>
  Ok (mkFormElement action method inputs submit_buttons None))))).

Definition is_button_control (button : Node) : bool :=
  negb (String.eqb (node_name button) "input"
        && negb (attr_is (node_get button "type") "button"
                 || attr_is (node_get button "type") "submit")).

Definition button_element_of (button : Node) : Res DOMElement :=
  res_bind (as_opt_str "id" (node_get button "id")) (fun id =>
  res_bind (as_str_list "classes" (node_get button "class")) (fun classes =>
  res_bind (text_or_value button) (fun text =>
  Ok (mkDOMElement (node_name button) id classes text (attrs_str button) 0 None
                   (id_selector button))))).

Definition link_element_of (link : Node) : Res DOMElement :=
  res_bind (as_opt_str "id" (node_get link "id")) (fun id =>
  res_bind (as_str_list "classes" (node_get link "class")) (fun classes =>
  res_bind (as_str "attributes" (node_get link "href")) (fun href =>
  Ok (mkDOMElement "a" id classes (Some (get_text_strip link)) [("href", href)] 0 None
                   (id_selector link))))).

Definition input_element_of (input_elem : Node) : Res DOMElement :=
  res_bind (as_opt_str "id" (node_get input_elem "id")) (fun id =>
  res_bind (as_str_list "classes" (node_get input_elem "class")) (fun classes =>
  Ok (mkDOMElement (node_name input_elem) id classes None (attrs_str input_elem) 0 None
                   (id_selector input_elem)))).

(** The double-quote character, as a string. *)
Definition dq : string := String (ascii_of_nat 34) EmptyString.

Definition clickable_selectors : list string :=
  [ "button"; "a[href]";
    "input[type=" ++ dq ++ "button" ++ dq ++ "]";
    "input[type=" ++ dq ++ "submit" ++ dq ++ "]";
    "[onclick]";
    "[role=" ++ dq ++ "button" ++ dq ++ "]" ].

(** The queries of [_analyze_interactions]. *)
Definition clickable_query : string :=
  "button, a[href], input[type=" ++ dq ++ "button" ++ dq ++ "], input[type="
  ++ dq ++ "submit" ++ dq ++ "], [onclick], [role=" ++ dq ++ "button" ++ dq ++ "]".

Definition focusable_query : string :=
  "input, textarea, select, button, a[href], [tabindex]:not([tabindex="
  ++ dq ++ "-1" ++ dq ++ "])".

Definition nav_links_query : string :=
  "nav a[href], header a[href], .nav a[href], .navigation a[href]".

(* ================================================================= *)
(** ** The accessibility script run in the page *)

Definition issue (type severity description element : string) : Json :=
  JDict [("type", JStr type); ("severity", JStr severity);
         ("description", JStr description); ("element", JStr element)].

(** [xs.forEach((x, index) => ...)], collecting what each step pushes;
    a step that throws ends the script. *)
Fixpoint for_each_indexed {A} (f : nat -> A -> Res (list Json)) (index : nat)
    (xs : list A) : Res (list Json) :=
  match xs with
  | [] => Ok []
  | x :: xs' =>
      res_bind (f index x) (fun here =>
      res_bind (for_each_indexed f (S index) xs') (fun later =>
      Ok (here ++ later)%list))
  end.

Definition image_rule (index : nat) (img : ImgEl) : Res (list Json) :=
  if String.eqb (img_alt img) EmptyString && negb (truthy_str (img_aria_label img))
  then Ok [issue "missing_alt_text" "medium" "Image missing alternative text"
                 ("img:nth-child(" ++ str_of_nat (index + 1) ++ ")")]
  else Ok [].

Definition input_rule (index : nat) (input : CtlEl) : Res (list Json) :=
  res_bind
    (if String.eqb (ctl_id input) EmptyString then Ok false
     else match ctl_label input with
          | Some found => Ok found
          | None => Raise (DriverError "SyntaxError: not a valid selector")
          end) (fun hasLabel =>
  if negb hasLabel && negb (truthy_str (ctl_aria_label input))
  then Ok [issue "missing_form_label" "high" "Form input missing label"
                 (ctl_tagName input ++
                  (if String.eqb (ctl_id input) EmptyString
                   then ":nth-child(" ++ str_of_nat (index + 1) ++ ")"
                   else "#" ++ ctl_id input))]
  else Ok []).

Fixpoint heading_rule (lastLevel : nat) (headings : list nat) : list Json :=
  match headings with
  | [] => []
  | level :: rest =>
      ((if (lastLevel + 1 <? level)%nat
        then [issue "heading_hierarchy" "medium" "Improper heading hierarchy"
                    ("h" ++ str_of_nat level)]
        else []) ++ heading_rule level rest)%list
  end.

(** [Math.max(0, 100 - (issues.length * 10))] *)
Definition a11y_score (issues : list Json) : Z :=
  Z.max 0 (100 - Z.of_nat (List.length issues) * 10).

Definition a11y_script (doc : A11yDoc) : Res Json :=
  res_bind (for_each_indexed image_rule 0 (doc_images doc)) (fun i1 =>
  res_bind (for_each_indexed input_rule 0 (doc_inputs doc)) (fun i2 =>
  let issues := (i1 ++ i2 ++ heading_rule 0 (doc_headings doc))%list in
  Ok (JDict [("issues", JList issues); ("score", JInt (a11y_score issues))]))).

(* ================================================================= *)
(** ** The monad: locals, browser state, exceptions, event trace *)

Section Engine.

Context (drv : Driver).

Record Out (L A : Type) : Type := mkOut {
  res : Res A;
  locals : L;
  world : W drv;
  events : list Event
}.
Arguments mkOut {L A}.
Arguments res {L A}.
Arguments locals {L A}.
Arguments world {L A}.
Arguments events {L A}.

(** A method body with mutable locals [L]: assignments made before an
    exception is raised survive it. *)
Definition M (L A : Type) : Type := L -> W drv -> Out L A.

Definition ret {L A} (a : A) : M L A :=
  fun l w => mkOut (Ok a) l w [].

Definition raise {L A} (e : Exc) : M L A :=
  fun l w => mkOut (Raise e) l w [].

Definition bind {L A B} (m : M L A) (f : A -> M L B) : M L B :=
  fun l w =>
    let o := m l w in
    match res o with
    | Ok a =>
        let o' := f a (locals o) (world o) in
        mkOut (res o') (locals o') (world o') (events o ++ events o')
    | Raise e => mkOut (Raise e) (locals o) (world o) (events o)
    end.

Definition lift {L A} (r : Res A) : M L A :=
  fun l w => mkOut r l w [].

Definition call {L} (c : Call) : M L (resp c) :=
  fun l w =>
    let (r, w') := drive drv c w in
    mkOut r l w' [ECall c (is_ok r)].

Definition log {L} (lvl : Level) (msg : string) : M L unit :=
  fun l w => mkOut (Ok tt) l w [ELog lvl msg].

Definition peek {L A} (f : W drv -> A) : M L A :=
  fun l w => mkOut (Ok (f w)) l w [].

Definition get {L} : M L L :=
  fun l w => mkOut (Ok l) l w [].

Definition modify {L} (f : L -> L) : M L unit :=
  fun l w => mkOut (Ok tt) (f l) w [].

(** [try: m except Exception as e: h e] *)
Definition try_except {L A} (m : M L A) (h : Exc -> M L A) : M L A :=
  fun l w =>
    let o := m l w in
    match res o with
    | Ok _ => o
    | Raise e =>
        let o' := h e (locals o) (world o) in
        mkOut (res o') (locals o') (world o') (events o ++ events o')
    end.

(** [try: m finally: fin] *)
Definition try_finally {L A} (m : M L A) (fin : M L unit) : M L A :=
  fun l w =>
    let o := m l w in
    let o' := fin (locals o) (world o) in
    mkOut (match res o' with Ok _ => res o | Raise e => Raise e end)
          (locals o') (world o') (events o ++ events o').

(** A callee with its own locals, starting from [l0]; its final locals
    are handed back when it returns. *)
Definition scope {L L' A} (l0 : L') (m : M L' A) : M L (A * L') :=
  fun l w =>
    let o := m l0 w in
    mkOut (match res o with Ok a => Ok (a, locals o) | Raise e => Raise e end)
          l (world o) (events o).

Notation "x <- m ;; k" := (bind m (fun x => k))
  (at level 61, m at next level, right associativity).
Notation "m ;;; k" := (bind m (fun _ => k))
  (at level 61, right associativity).

(** [for x in xs: body x] *)
Fixpoint for_each {L X} (xs : list X) (body : X -> M L unit) : M L unit :=
  match xs with
  | [] => ret tt
  | x :: xs' => body x ;;; for_each xs' body
  end.

(* ================================================================= *)
(** ** FrontendCapture.cleanup *)

Definition cleanup {L} (self : FrontendCapture) : M L unit :=
  try_except
    ((if context self then call ContextClose else ret tt) ;;;
     (if browser self then call BrowserClose else ret tt) ;;;
     (if playwright self then call PlaywrightStop else ret tt) ;;;
     log INFO "Capture system cleaned up")
    (fun e => log ERROR ("Error during cleanup: " ++ exc_str e)).

(** [await self.context.new_page()] *)
Definition new_page {L} (self : FrontendCapture) : M L unit :=
  if context self then call NewPage
  else raise (AttributeError "'NoneType' object has no attribute 'new_page'").

(* ================================================================= *)
(** ** The analysis stages *)

(** [for x in xs: body x], where [body] answers [true] on [break]. *)
Fixpoint for_each_break {L X} (xs : list X) (body : X -> M L bool) : M L unit :=
  match xs with
  | [] => ret tt
  | x :: xs' => b <- body x ;; if b then ret tt else for_each_break xs' body
  end.

Definition _capture_screenshot {L} : M L string :=
  try_except
    (screenshot <- call PageScreenshot ;;
     ret (b64encode screenshot))
    (fun e =>
       log ERROR ("Screenshot capture failed: " ++ exc_str e) ;;;
       ret EmptyString).

(** The local is [elements]. *)
Definition _extract_dom_elements {L} (soup : Node) : M L (list DOMElement) :=
  r <- scope (@nil DOMElement)
         (try_except
            (for_each important_tags (fun tag_name =>
               for_each_break (find_all soup [tag_name]) (fun element =>
                 try_except
                   (elem <- lift (dom_element_of tag_name element) ;;
                    modify (fun elements => (elements ++ [elem])%list) ;;;
                    elements <- get ;;
                    ret (100 <=? List.length elements)%nat)
                   (fun e =>
                      log DEBUG ("Error processing element " ++ tag_name ++ ": " ++ exc_str e) ;;;
                      ret false))))
            (fun e => log ERROR ("Error extracting DOM elements: " ++ exc_str e))) ;;
  ret (firstn 100 (snd r)).

(** The local is [forms]. *)
Definition _extract_forms {L} (soup : Node) : M L (list FormElement) :=
  r <- scope (@nil FormElement)
         (try_except
            (for_each (find_all soup ["form"]) (fun form =>
               fe <- lift (form_element_of form) ;;
               modify (fun forms => (forms ++ [fe])%list)))
            (fun e => log ERROR ("Error extracting forms: " ++ exc_str e))) ;;
  ret (snd r).

(** The local is [buttons]. *)
Definition _extract_buttons {L} (soup : Node) : M L (list DOMElement) :=
  r <- scope (@nil DOMElement)
         (try_except
            (for_each (find_all soup ["button"; "input"]) (fun button =>
               if is_button_control button then
                 b <- lift (button_element_of button) ;;
                 modify (fun buttons => (buttons ++ [b])%list)
               else ret tt))
            (fun e => log ERROR ("Error extracting buttons: " ++ exc_str e))) ;;
  ret (firstn 20 (snd r)).

(** The local is [links]. *)
Definition _extract_links {L} (soup : Node) : M L (list DOMElement) :=
  r <- scope (@nil DOMElement)
         (try_except
            (for_each (find_all_href soup "a") (fun link =>
               l <- lift (link_element_of link) ;;
               modify (fun links => (links ++ [l])%list)))
            (fun e => log ERROR ("Error extracting links: " ++ exc_str e))) ;;
  ret (firstn 30 (snd r)).

(** The local is [inputs]. *)
Definition _extract_inputs {L} (soup : Node) : M L (list DOMElement) :=
  r <- scope (@nil DOMElement)
         (try_except
            (for_each (find_all soup ["input"; "textarea"; "select"]) (fun input_elem =>
               i <- lift (input_element_of input_elem) ;;
               modify (fun inputs => (inputs ++ [i])%list)))
            (fun e => log ERROR ("Error extracting inputs: " ++ exc_str e))) ;;
  ret (snd r).

(** The inner [try] of [_extract_interactive_elements], for one handle;
    the local is [interactive]. *)
Definition probe_element (selector : string) (elem : Handle)
    : M (list InteractiveElement) unit :=
  try_except
    (text_content <- call (ElemTextContent elem) ;;
     is_visible <- call (ElemIsVisible elem) ;;
     modify (fun interactive =>
       (interactive ++
        [mkInteractiveElement "clickable"
           (if truthy_str text_content
            then Some (py_strip (opt_str text_content)) else None)
           None selector true false is_visible])%list))
    (fun _ => ret tt).

(** The [try] around one selector. *)
Definition probe_selector (selector : string) : M (list InteractiveElement) unit :=
  try_except
    (elements <- call (QuerySelectorAll selector) ;;
     for_each (firstn 10 elements) (probe_element selector))
    (fun _ => ret tt).

Definition _extract_interactive_elements {L} : M L (list InteractiveElement) :=
  r <- scope (@nil InteractiveElement)
         (try_except
            (for_each clickable_selectors probe_selector)
            (fun e => log ERROR ("Error extracting interactive elements: " ++ exc_str e))) ;;
  ret (firstn 30 (snd r)).

(** What [_analyze_dom] does with the markup once it has it; the local
    is [context]. *)
Definition extract_all (content : PageContent) : M FrontendContext unit :=
  modify (set_raw_html (Some (pc_html content))) ;;;
  let soup := pc_soup content in
  elements <- _extract_dom_elements soup ;;
  modify (set_elements elements) ;;;
  forms <- _extract_forms soup ;;
  modify (set_forms forms) ;;;
  buttons <- _extract_buttons soup ;;
  modify (set_buttons buttons) ;;;
  links <- _extract_links soup ;;
  modify (set_links links) ;;;
  inputs <- _extract_inputs soup ;;
  modify (set_inputs inputs) ;;;
  interactive <- _extract_interactive_elements ;;
  modify (set_interactive interactive).

Definition _analyze_dom : M FrontendContext unit :=
  try_except
    (content <- call PageContentCall ;;
     extract_all content)
    (fun e => log ERROR ("DOM analysis failed: " ++ exc_str e)).

Definition _analyze_performance {L} (load_time : Z) : M L PerformanceMetrics :=
  try_except
    (performance_data <- call EvalPerformance ;;
     ret (mkPerformanceMetrics load_time
            (firstContentfulPaint performance_data) None
            (domContentLoaded performance_data) [] []))
    (fun e =>
       log ERROR ("Performance analysis failed: " ++ exc_str e) ;;;
       ret (mkPerformanceMetrics load_time None None None [] [])).

Definition _analyze_accessibility {L} : M L Json :=
  try_except
    (doc <- call EvalAccessibility ;;
     a11y_data <- lift (a11y_script doc) ;;
     ret a11y_data)
    (fun e =>
       log ERROR ("Accessibility analysis failed: " ++ exc_str e) ;;;
       ret (JDict [("issues", JList []); ("score", JInt 0)])).

Definition breakpoints : list (string * Z * Z) :=
  [ ("mobile", 375, 667); ("tablet", 768, 1024); ("desktop", 1280, 720) ].

(** The local is [responsive_data]: its breakpoints and its issues. *)
Definition _test_responsive {L} : M L Json :=
  r <- scope (@nil Json, @nil Json)
         (try_except
            (for_each breakpoints (fun bp =>
               let '(name, width, height) := bp in
               call (SetViewportSize [("width", width); ("height", height)]) ;;;
               call (WaitForTimeout 1000) ;;;
               overflow_check <- call EvalOverflow ;;
               modify (fun d =>
                 ((fst d ++ [JDict [("name", JStr name); ("width", JInt width);
                                    ("height", JInt height);
                                    ("has_horizontal_scroll", JBool overflow_check)]])%list,
                  snd d)) ;;;
               if overflow_check then
                 modify (fun d =>
                   (fst d,
                    (snd d ++ [JDict [("breakpoint", JStr name);
                                      ("issue", JStr "horizontal_overflow");
                                      ("description",
                                       JStr ("Page has horizontal overflow at " ++ name ++ " viewport"))]])%list))
               else ret tt))
            (fun e => log ERROR ("Responsive testing failed: " ++ exc_str e))) ;;
  ret (JDict [("breakpoints", JList (fst (snd r))); ("issues", JList (snd (snd r)))]).

Record Interactions : Type := mkInteractions {
  clickable_count : nat;
  focusable_count : nat;
  form_count : nat;
  navigation_links : list Json;
  can_scroll : bool
}.

Definition interactions_json (i : Interactions) : Json :=
  JDict [("clickable_count", JInt (Z.of_nat (clickable_count i)));
         ("focusable_count", JInt (Z.of_nat (focusable_count i)));
         ("form_count", JInt (Z.of_nat (form_count i)));
         ("navigation_links", JList (navigation_links i));
         ("can_scroll", JBool (can_scroll i))].

(** The outer local is [context]; the inner one is [interactions]. *)
Definition _analyze_interactions : M FrontendContext unit :=
  ctx <- get ;;
  r <- scope (mkInteractions 0 0 (List.length (fc_forms ctx)) [] false)
         (try_except
            (clickable <- call (QuerySelectorAll clickable_query) ;;
             modify (fun i => mkInteractions (List.length clickable) (focusable_count i)
                                (form_count i) (navigation_links i) (can_scroll i)) ;;;
             focusable <- call (QuerySelectorAll focusable_query) ;;
             modify (fun i => mkInteractions (clickable_count i) (List.length focusable)
                                (form_count i) (navigation_links i) (can_scroll i)) ;;;
             scroll_height <- call EvalScrollHeight ;;
             client_height <- call EvalClientHeight ;;
             modify (fun i => mkInteractions (clickable_count i) (focusable_count i)
                                (form_count i) (navigation_links i)
                                (Z.ltb client_height scroll_height)) ;;;
             nav_links <- call (QuerySelectorAll nav_links_query) ;;
             for_each (firstn 10 nav_links) (fun link =>
               try_except
                 (href <- call (ElemGetAttribute link "href") ;;
                  text <- call (ElemTextContent link) ;;
                  if truthy_str href && truthy_str text then
                    modify (fun i => mkInteractions (clickable_count i) (focusable_count i)
                              (form_count i)
                              (navigation_links i ++
                               [JDict [("text", JStr (py_strip (opt_str text)));
                                       ("href", JStr (opt_str href))]])%list
                              (can_scroll i))
                  else ret tt)
                 (fun _ => ret tt)))
            (fun e => log ERROR ("Interaction analysis failed: " ++ exc_str e))) ;;
  modify (set_interactions (interactions_json (snd r))).

(* ================================================================= *)
(** ** FrontendCapture.capture_frontend *)

Definition default_options : list (string * bool) :=
  [ ("screenshot", true); ("dom_analysis", true); ("performance", true);
    ("accessibility", true); ("responsive", false); ("console_logs", true) ].

(** The gated stages of [capture_frontend]; the local is [context]. *)
Definition screenshot_stage (options : list (string * bool)) : M FrontendContext unit :=
  if dict_get_default options "screenshot" true then
    s <- _capture_screenshot ;; modify (set_screenshot (Some s))
  else ret tt.

Definition dom_stage (options : list (string * bool)) : M FrontendContext unit :=
  if dict_get_default options "dom_analysis" true then _analyze_dom else ret tt.

Definition performance_stage (options : list (string * bool)) (load_time : Z)
    : M FrontendContext unit :=
  if dict_get_default options "performance" true then
    p <- _analyze_performance load_time ;; modify (set_performance (Some p))
  else ret tt.

Definition accessibility_stage (options : list (string * bool)) : M FrontendContext unit :=
  if dict_get_default options "accessibility" true then
    a <- _analyze_accessibility ;; modify (set_accessibility a)
  else ret tt.

Definition responsive_stage (options : list (string * bool)) : M FrontendContext unit :=
  if dict_get_default options "responsive" false then
    r <- _test_responsive ;; modify (set_responsive r)
  else ret tt.

(** The stages run on the freshly built [context], in order. *)
Definition run_stages (url : string) (options : list (string * bool)) (load_time : Z)
    : M FrontendContext unit :=
  screenshot_stage options ;;;
  dom_stage options ;;;
  performance_stage options load_time ;;;
  accessibility_stage options ;;;
  responsive_stage options ;;;
  _analyze_interactions ;;;
  log INFO ("Successfully captured context for " ++ url).

(** [viewport_size["width"]] etc. on [page.viewport_size] *)
Definition viewport_field (vs : option (list (string * Z))) (k : string) : Res Z :=
  match vs with
  | None => Raise (TypeError "'NoneType' object is not subscriptable")
  | Some d => dict_index d k
  end.

(** The [try]/[except]/[finally] block of [capture_frontend]. *)
Definition capture_body {L} (url : string) (options : list (string * bool))
    : M L FrontendContext :=
  try_finally
    (try_except
       (start_time <- peek (now drv) ;;
        call (Goto url (Some 30000)) ;;;
        end_time <- peek (now drv) ;;
        let load_time := end_time - start_time in
        title <- call PageTitle ;;
        current_url <- peek (page_url drv) ;;
        viewport_size <- peek (page_viewport_size drv) ;;
        timestamp <- peek (now drv) ;;
        width <- lift (viewport_field viewport_size "width") ;;
        height <- lift (viewport_field viewport_size "height") ;;
        console_logs <- peek (fun w =>
          map (fun m => fst m ++ ": " ++ snd m) (console drv w)) ;;
        r <- scope (new_context timestamp current_url title
                      [("width", width); ("height", height)] console_logs)
               (run_stages url options load_time) ;;
        ret (snd r))
       (fun e =>
          log ERROR ("Error capturing frontend context: " ++ exc_str e) ;;;
          raise e))
    (call PageClose).

Definition capture_frontend {L} (self : FrontendCapture) (url : string)
    (options : option (list (string * bool)))
    (viewport : option (list (string * Z))) : M L FrontendContext :=
  let options := match options with None => default_options | Some o => o end in
  new_page self ;;;
  (if truthy_dict viewport
   then call (SetViewportSize (match viewport with Some v => v | None => [] end))
   else ret tt) ;;;
  capture_body url options.

(* ================================================================= *)
(** ** FrontendCapture.interact_with_page *)

(** The inner [try]/[except] around one action; the local is [result]. *)
Definition perform_action (action : InteractionAction) : M InteractionResult unit :=
  try_except
    (if String.eqb (ia_type action) "click" then
       (if truthy_str (ia_selector action) then
          call (Click (opt_str (ia_selector action)) 5000)
        else if truthy_dict (ia_coordinates action) then
          x <- lift (dict_index (match ia_coordinates action with Some d => d | None => [] end) "x") ;;
          y <- lift (dict_index (match ia_coordinates action with Some d => d | None => [] end) "y") ;;
          call (MouseClick x y)
        else ret tt) ;;;
       modify (set_success true)
     else if String.eqb (ia_type action) "fill" then
       (if truthy_str (ia_selector action) && truthy_str (ia_value action) then
          call (Fill (opt_str (ia_selector action)) (opt_str (ia_value action)) 5000) ;;;
          modify (set_success true)
        else ret tt)
     else if String.eqb (ia_type action) "wait" then
       call (WaitForTimeout (if truthy_int (ia_duration action)
                             then match ia_duration action with Some d => d | None => 1000 end
                             else 1000)) ;;;
       modify (set_success true)
     else if String.eqb (ia_type action) "scroll" then
       (if truthy_dict (ia_coordinates action) then
          x <- lift (dict_index (match ia_coordinates action with Some d => d | None => [] end) "x") ;;
          y <- lift (dict_index (match ia_coordinates action with Some d => d | None => [] end) "y") ;;
          call (MouseWheel x y)
        else call (KeyboardPress "PageDown")) ;;;
       modify (set_success true)
     else if String.eqb (ia_type action) "navigate" then
       (if truthy_str (ia_url action) then
          call (Goto (opt_str (ia_url action)) None) ;;;
          modify (set_success true)
        else ret tt)
     else
       modify (set_error (Some ("Unknown action type: " ++ ia_type action))))
    (fun e =>
       modify (set_error (Some (exc_str e))) ;;;
       log ERROR ("Action " ++ ia_type action ++ " failed: " ++ exc_str e)).

(** The body of [for action in actions]; the local is [results]. *)
Definition interaction_step (action : InteractionAction) : M (list InteractionResult) unit :=
  ts <- peek (now drv) ;;
  r <- scope (mkInteractionResult (ia_type action) false None None ts)
             (perform_action action) ;;
  modify (fun results => (results ++ [snd r])%list) ;;;
  call (WaitForTimeout 500).

Definition interact_with_page {L} (self : FrontendCapture) (url : string)
    (actions : list InteractionAction) : M L (list InteractionResult) :=
  r <- scope (@nil InteractionResult)
         (new_page self ;;;
          try_finally
            (try_except
               (call (Goto url (Some 30000)) ;;;
                for_each actions interaction_step)
               (fun e => log ERROR ("Interaction session failed: " ++ exc_str e)))
            (call PageClose)) ;;
  ret (snd r).

End Engine.

Arguments mkOut {drv L A}.
Arguments res {drv L A}.
Arguments locals {drv L A}.
Arguments world {drv L A}.
Arguments events {drv L A}.

(* ================================================================= *)
(** ** Reading a trace *)

(** The driver calls of a trace, each with whether it returned. *)
Fixpoint calls_of (evs : list Event) : list (Call * bool) :=
  match evs with
  | [] => []
  | ECall c ok :: evs' => (c, ok) :: calls_of evs'
  | ELog _ _ :: evs' => calls_of evs'
  end.

(** The close steps [cleanup] has to take for a given session. *)
Definition cleanup_plan (self : FrontendCapture) : list Call :=
  ((if context self then [ContextClose] else []) ++
   (if browser self then [BrowserClose] else []) ++
   (if playwright self then [PlaywrightStop] else []))%list.

Definition is_page_close (e : Event) : bool :=
  match e with ECall PageClose _ => true | _ => false end.

Definition is_page_open (e : Event) : bool :=
  match e with ECall NewPage true => true | _ => false end.

Definition count_selector (s : string) (l : list InteractiveElement) : nat :=
  List.length (filter (fun e => String.eqb (ie_selector e) s) l).

(* ================================================================= *)
(** ** Concrete drivers *)

Definition sample_soup : Node :=
  Tag "[document]" []
    [ Tag "html" []
        [ Tag "body" []
            [ Tag "h1" [("id", AStr "top")] [NavStr " Example Domain "];
              Tag "form" [("action", AStr "/search"); ("method", AStr "post")]
                [ Tag "input" [("type", AStr "text"); ("id", AStr "q")] [];
                  Tag "button" [("class", AList ["btn"; "go"])] [NavStr "Go"] ];
              Tag "form" [] [ Tag "input" [("type", AStr "submit"); ("value", AStr "Send")] [] ];
              Tag "a" [("href", AStr "/more")] [NavStr "More"] ] ] ].

Definition sample_a11y_doc : A11yDoc :=
  mkA11yDoc [mkImgEl EmptyString None; mkImgEl "logo" None]
            [mkCtlEl "input" "q" (Some false) None]
            [1; 3]%nat.

(** What the scripted browser answers when a call returns. *)
Definition scripted_resp (soup : Node) (c : Call) : resp c :=
  match c return resp c with
  | PageTitle => "Example Domain"
  | PageScreenshot => "PNG"
  | PageContentCall => mkPageContent "<html></html>" soup
  | QuerySelectorAll _ => seq 0 12
  | ElemTextContent _ => Some " Go "
  | ElemIsVisible _ => true
  | ElemGetAttribute _ _ => Some "/more"
  | EvalPerformance => mkPerfData (Some 3) (Some 120)
  | EvalAccessibility => sample_a11y_doc
  | EvalOverflow => false
  | EvalScrollHeight => 2000
  | EvalClientHeight => 720
  | _ => tt
  end.

(** A browser whose state is a tick counter; the calls selected by
    [fails] raise, every other call returns. *)
Definition scripted (fails : Call -> bool) (soup : Node) : Driver :=
  mkDriver nat
    (fun c w =>
       (if fails c then Raise (DriverError "browser error") else Ok (scripted_resp soup c),
        S w))
    (fun w => Z.of_nat w)
    (fun _ => "https://example.com/")
    (fun _ => Some [("width", 1280); ("height", 720)])
    (fun _ => [("log", "ready")]).

Definition healthy : Driver := scripted (fun _ => false) sample_soup.

Definition unreachable_site : Driver :=
  scripted (fun c => match c with Goto _ _ => true | _ => false end) sample_soup.

Definition rejects_viewport : Driver :=
  scripted (fun c => match c with SetViewportSize _ => true | _ => false end) sample_soup.

Definition context_close_fails : Driver :=
  scripted (fun c => match c with ContextClose => true | _ => false end) sample_soup.

Definition missing_elements : Driver :=
  scripted (fun c => match c with Click _ _ | Fill _ _ _ => true | _ => false end) sample_soup.

Definition audit_fails : Driver :=
  scripted (fun c => match c with EvalAccessibility => true | _ => false end) sample_soup.

Definition session : FrontendCapture := mkFrontendCapture true true true.

Definition act (type : string) : InteractionAction :=
  mkInteractionAction type None None None None None.

Definition click_on (selector : string) : InteractionAction :=
  mkInteractionAction "click" (Some selector) None None None None.

Definition fill_in (selector value : string) : InteractionAction :=
  mkInteractionAction "fill" (Some selector) (Some value) None None None.

Definition wait_for (ms : Z) : InteractionAction :=
  mkInteractionAction "wait" None None None (Some ms) None.

(* ================================================================= *)
(** ** Reasoning rules for method bodies *)

Section Rules.

Context (drv : Driver).

(** [m] never raises. *)
Definition total {L A} (m : M drv L A) : Prop :=
  forall l w, is_ok (res (m l w)) = true.

(** [m] maintains [I] on its locals, on every exit. *)
Definition keeps {L A} (I : L -> Prop) (m : M drv L A) : Prop :=
  forall l w, I l -> I (locals (m l w)).

(** What [m] returns satisfies [Q]. *)
Definition yields {L A} (Q : A -> Prop) (m : M drv L A) : Prop :=
  forall l w a, res (m l w) = Ok a -> Q a.

(** [m] makes only driver calls selected by [S]. *)
Definition allowed (S : Call -> bool) (e : Event) : Prop :=
  match e with ECall c _ => S c = true | ELog _ _ => True end.

Definition emits {L A} (S : Call -> bool) (m : M drv L A) : Prop :=
  forall l w, Forall (allowed S) (events (m l w)).

Variables L : Type.

(** *** total *)

Lemma total_ret {A} (a : A) : total (@ret drv L A a).
Proof. intros l w; reflexivity. Qed.

Lemma total_log lvl msg : total (@log drv L lvl msg).
Proof. intros l w; reflexivity. Qed.

Lemma total_modify f : total (@modify drv L f).
Proof. intros l w; reflexivity. Qed.

Lemma total_get : total (@get drv L).
Proof. intros l w; reflexivity. Qed.

Lemma total_peek {A} (f : W drv -> A) : total (@peek drv L A f).
Proof. intros l w; reflexivity. Qed.

Lemma total_bind {A B} (m : M drv L A) (f : A -> M drv L B) :
  total m -> (forall a, total (f a)) -> total (bind drv m f).
Proof.
  intros Hm Hf l w. unfold bind.
  specialize (Hm l w). destruct (res (m l w)) eqn:E; [|discriminate].
  cbn. apply Hf.
Qed.

Lemma total_try_except {A} (m : M drv L A) (h : Exc -> M drv L A) :
  (forall e, total (h e)) -> total (try_except drv m h).
Proof.
  intros Hh l w. unfold try_except.
  destruct (res (m l w)) eqn:E.
  - rewrite E. reflexivity.
  - cbn. apply Hh.
Qed.

Lemma total_scope {L' A} (l0 : L') (m : M drv L' A) :
  total m -> total (@scope drv L L' A l0 m).
Proof.
  intros Hm l w. unfold scope. cbn.
  specialize (Hm l0 w). destruct (res (m l0 w)); [reflexivity|discriminate].
Qed.

Lemma total_for_each {X} (xs : list X) (body : X -> M drv L unit) :
  (forall x, total (body x)) -> total (for_each drv xs body).
Proof.
  intros Hb. induction xs as [|x xs IH]; cbn.
  - apply total_ret.
  - apply total_bind; [apply Hb | intros _; exact IH].
Qed.

(** *** keeps *)

Lemma keeps_ret I {A} (a : A) : keeps I (@ret drv L A a).
Proof. intros l w H; exact H. Qed.

Lemma keeps_raise I {A} e : keeps I (@raise drv L A e).
Proof. intros l w H; exact H. Qed.

Lemma keeps_lift I {A} (r : Res A) : keeps I (@lift drv L A r).
Proof. intros l w H; exact H. Qed.

Lemma keeps_log I lvl msg : keeps I (@log drv L lvl msg).
Proof. intros l w H; exact H. Qed.

Lemma keeps_peek I {A} (f : W drv -> A) : keeps I (@peek drv L A f).
Proof. intros l w H; exact H. Qed.

Lemma keeps_get I : keeps I (@get drv L).
Proof. intros l w H; exact H. Qed.

Lemma keeps_call I c : keeps I (@call drv L c).
Proof. intros l w H. unfold call. destruct (drive drv c w). exact H. Qed.

Lemma keeps_modify (I : L -> Prop) f :
  (forall l, I l -> I (f l)) -> keeps I (@modify drv L f).
Proof. intros Hf l w H. cbn. apply Hf, H. Qed.

Lemma keeps_bind_yields {A B} (I : L -> Prop) (Q : A -> Prop)
    (m : M drv L A) (f : A -> M drv L B) :
  keeps I m -> yields Q m -> (forall a, Q a -> keeps I (f a)) ->
  keeps I (bind drv m f).
Proof.
  intros Hm Hq Hf l w H. unfold bind.
  specialize (Hm l w H). specialize (Hq l w).
  destruct (res (m l w)) eqn:E; cbn.
  - apply (Hf a); [apply Hq; reflexivity | exact Hm].
  - exact Hm.
Qed.

Lemma keeps_bind I {A B} (m : M drv L A) (f : A -> M drv L B) :
  keeps I m -> (forall a, keeps I (f a)) -> keeps I (bind drv m f).
Proof.
  intros Hm Hf. apply (keeps_bind_yields I (fun _ => True)); auto.
  intros l w a _; exact Logic.I.
Qed.

Lemma keeps_try_except I {A} (m : M drv L A) (h : Exc -> M drv L A) :
  keeps I m -> (forall e, keeps I (h e)) -> keeps I (try_except drv m h).
Proof.
  intros Hm Hh l w H. unfold try_except.
  specialize (Hm l w H).
  destruct (res (m l w)) eqn:E.
  - exact Hm.
  - cbn. apply Hh, Hm.
Qed.

Lemma keeps_try_finally I {A} (m : M drv L A) (fin : M drv L unit) :
  keeps I m -> keeps I fin -> keeps I (try_finally drv m fin).
Proof.
  intros Hm Hf l w H. unfold try_finally. cbn. apply Hf, Hm, H.
Qed.

Lemma keeps_scope I {L' A} (l0 : L') (m : M drv L' A) :
  keeps I (@scope drv L L' A l0 m).
Proof. intros l w H. exact H. Qed.

Lemma keeps_for_each I {X} (xs : list X) (body : X -> M drv L unit) :
  (forall x, In x xs -> keeps I (body x)) -> keeps I (for_each drv xs body).
Proof.
  induction xs as [|x xs IH]; intros Hb; cbn.
  - apply keeps_ret.
  - apply keeps_bind.
    + apply Hb; left; reflexivity.
    + intros _. apply IH. intros y Hy. apply Hb; right; exact Hy.
Qed.

Lemma keeps_for_each_break I {X} (xs : list X) (body : X -> M drv L bool) :
  (forall x, In x xs -> keeps I (body x)) -> keeps I (for_each_break drv xs body).
Proof.
  induction xs as [|x xs IH]; intros Hb; cbn.
  - apply keeps_ret.
  - apply keeps_bind.
    + apply Hb; left; reflexivity.
    + intros [|]; [apply keeps_ret|].
      apply IH. intros y Hy. apply Hb; right; exact Hy.
Qed.

(** *** yields *)

Lemma yields_ret {A} (Q : A -> Prop) (a : A) : Q a -> yields Q (@ret drv L A a).
Proof. intros H l w b E. cbn in E. inversion E; subst; exact H. Qed.

Lemma yields_bind {A B} (Q : B -> Prop) (m : M drv L A) (f : A -> M drv L B) :
  (forall a, yields Q (f a)) -> yields Q (bind drv m f).
Proof.
  intros Hf l w b. unfold bind.
  destruct (res (m l w)) eqn:E; cbn; [|discriminate].
  apply Hf.
Qed.

Lemma yields_try_except {A} (Q : A -> Prop) (m : M drv L A) (h : Exc -> M drv L A) :
  yields Q m -> (forall e, yields Q (h e)) -> yields Q (try_except drv m h).
Proof.
  intros Hm Hh l w b. unfold try_except.
  destruct (res (m l w)) eqn:E.
  - rewrite E. intros E'. inversion E'; subst. apply (Hm l w), E.
  - cbn. apply Hh.
Qed.

(** The value of a [scope] is the callee's value with its final
    locals. *)
Lemma yields_scope {L' A} (I : L' -> Prop) (l0 : L') (m : M drv L' A) :
  I l0 -> keeps I m -> yields (fun r => I (snd r)) (@scope drv L L' A l0 m).
Proof.
  intros H0 Hm l w r. unfold scope. cbn.
  specialize (Hm l0 w H0).
  destruct (res (m l0 w)); [|discriminate].
  intros E. inversion E; subst. exact Hm.
Qed.

Lemma yields_raise {A} (Q : A -> Prop) e : yields Q (@raise drv L A e).
Proof. intros l w a E. discriminate E. Qed.

Lemma yields_bind_strong {A B} (P : A -> Prop) (Q : B -> Prop)
    (m : M drv L A) (f : A -> M drv L B) :
  yields P m -> (forall a, P a -> yields Q (f a)) -> yields Q (bind drv m f).
Proof.
  intros Hm Hf l w b. unfold bind.
  destruct (res (m l w)) eqn:E; cbn; [|discriminate].
  apply Hf. apply (Hm l w), E.
Qed.

Lemma yields_try_finally {A} (Q : A -> Prop) (m : M drv L A) (fin : M drv L unit) :
  yields Q m -> yields Q (try_finally drv m fin).
Proof.
  intros Hm l w a. unfold try_finally. cbn.
  destruct (res (fin (locals (m l w)) (world (m l w)))); [|discriminate].
  apply Hm.
Qed.

(** *** emits *)

Lemma emits_ret S {A} (a : A) : emits S (@ret drv L A a).
Proof. intros l w; constructor. Qed.

Lemma emits_raise S {A} e : emits S (@raise drv L A e).
Proof. intros l w; constructor. Qed.

Lemma emits_lift S {A} (r : Res A) : emits S (@lift drv L A r).
Proof. intros l w; constructor. Qed.

Lemma emits_log S lvl msg : emits S (@log drv L lvl msg).
Proof. intros l w; repeat constructor. Qed.

Lemma emits_peek S {A} (f : W drv -> A) : emits S (@peek drv L A f).
Proof. intros l w; constructor. Qed.

Lemma emits_get S : emits S (@get drv L).
Proof. intros l w; constructor. Qed.

Lemma emits_modify S f : emits S (@modify drv L f).
Proof. intros l w; constructor. Qed.

Lemma emits_call (S : Call -> bool) c : S c = true -> emits S (@call drv L c).
Proof.
  intros H l w. unfold call. destruct (drive drv c w). cbn.
  repeat constructor. exact H.
Qed.

Lemma emits_bind S {A B} (m : M drv L A) (f : A -> M drv L B) :
  emits S m -> (forall a, emits S (f a)) -> emits S (bind drv m f).
Proof.
  intros Hm Hf l w. unfold bind.
  specialize (Hm l w).
  destruct (res (m l w)) eqn:E; cbn.
  - apply Forall_app; split; [exact Hm | apply Hf].
  - exact Hm.
Qed.

Lemma emits_try_except S {A} (m : M drv L A) (h : Exc -> M drv L A) :
  emits S m -> (forall e, emits S (h e)) -> emits S (try_except drv m h).
Proof.
  intros Hm Hh l w. unfold try_except.
  specialize (Hm l w).
  destruct (res (m l w)) eqn:E.
  - exact Hm.
  - cbn. apply Forall_app; split; [exact Hm | apply Hh].
Qed.

Lemma emits_try_finally S {A} (m : M drv L A) (fin : M drv L unit) :
  emits S m -> emits S fin -> emits S (try_finally drv m fin).
Proof.
  intros Hm Hf l w. unfold try_finally. cbn.
  apply Forall_app; split; [apply Hm | apply Hf].
Qed.

Lemma emits_scope S {L' A} (l0 : L') (m : M drv L' A) :
  emits S m -> emits S (@scope drv L L' A l0 m).
Proof. intros Hm l w. unfold scope. cbn. apply Hm. Qed.

Lemma emits_for_each S {X} (xs : list X) (body : X -> M drv L unit) :
  (forall x, emits S (body x)) -> emits S (for_each drv xs body).
Proof.
  intros Hb. induction xs as [|x xs IH]; cbn.
  - apply emits_ret.
  - apply emits_bind; [apply Hb | intros _; exact IH].
Qed.

Lemma emits_for_each_break S {X} (xs : list X) (body : X -> M drv L bool) :
  (forall x, emits S (body x)) -> emits S (for_each_break drv xs body).
Proof.
  intros Hb. induction xs as [|x xs IH]; cbn.
  - apply emits_ret.
  - apply emits_bind; [apply Hb | intros [|]; [apply emits_ret | exact IH]].
Qed.

End Rules.

(* ================================================================= *)
(** ** Running a method body step by step *)

Section Exec.

Context (drv : Driver).

(** [o], with [evs] recorded before its own events. *)
Definition prepend {L A} (evs : list Event) (o : Out drv L A) : Out drv L A :=
  match o with
  | mkOut r l w ev => mkOut r l w (evs ++ ev)
  end.

Lemma exec_bind {L A B} (m : M drv L A) (f : A -> M drv L B) l w :
  bind drv m f l w =
  match m l w with
  | mkOut (Ok a) l1 w1 ev => prepend ev (f a l1 w1)
  | mkOut (Raise e) l1 w1 ev => mkOut (Raise e) l1 w1 ev
  end.
Proof.
  unfold bind. destruct (m l w) as [[a|e] l1 w1 ev]; cbn; [|reflexivity].
  destruct (f a l1 w1); reflexivity.
Qed.

Lemma exec_try_except {L A} (m : M drv L A) (h : Exc -> M drv L A) l w :
  try_except drv m h l w =
  match m l w with
  | mkOut (Ok a) l1 w1 ev => mkOut (Ok a) l1 w1 ev
  | mkOut (Raise e) l1 w1 ev => prepend ev (h e l1 w1)
  end.
Proof.
  unfold try_except. destruct (m l w) as [[a|e] l1 w1 ev]; cbn; [reflexivity|].
  destruct (h e l1 w1); reflexivity.
Qed.

Lemma exec_try_finally {L A} (m : M drv L A) (fin : M drv L unit) l w :
  try_finally drv m fin l w =
  match m l w with
  | mkOut r l1 w1 ev =>
      match fin l1 w1 with
      | mkOut (Ok _) l2 w2 ev' => mkOut r l2 w2 (ev ++ ev')
      | mkOut (Raise e) l2 w2 ev' => mkOut (Raise e) l2 w2 (ev ++ ev')
      end
  end.
Proof.
  unfold try_finally. destruct (m l w) as [r l1 w1 ev]. cbn.
  destruct (fin l1 w1) as [[[]|e] l2 w2 ev']; reflexivity.
Qed.

Lemma exec_scope {L L' A} (l0 : L') (m : M drv L' A) (l : L) w :
  scope drv l0 m l w =
  match m l0 w with
  | mkOut (Ok a) l1 w1 ev => mkOut (Ok (a, l1)) l w1 ev
  | mkOut (Raise e) l1 w1 ev => mkOut (Raise e) l w1 ev
  end.
Proof. unfold scope. destruct (m l0 w) as [[a|e] l1 w1 ev]; reflexivity. Qed.

Lemma exec_call {L} (c : Call) (l : L) w :
  call drv c l w =
  match drive drv c w with
  | (Ok a, w') => mkOut (Ok a) l w' [ECall c true]
  | (Raise e, w') => mkOut (Raise e) l w' [ECall c false]
  end.
Proof. unfold call. destruct (drive drv c w) as [[a|e] w']; reflexivity. Qed.

End Exec.

Ltac exec_step drv :=
  first
    [ rewrite (exec_bind drv)
    | rewrite (exec_try_except drv)
    | rewrite (exec_try_finally drv)
    | rewrite (exec_scope drv)
    | rewrite (exec_call drv)
    | progress unfold ret, raise, lift, log, peek, get, modify
    | match goal with
      | |- context [drive drv ?c ?w] =>
          let e := fresh "e" in let w' := fresh "w" in let E := fresh "Hdrive" in
          destruct (drive drv c w) as [[?|e] w'] eqn:E
      end ].

Ltac exec drv :=
  repeat (cbv beta iota delta [prepend]; exec_step drv);
  cbv beta iota delta [prepend].

(** Structural rules, applied along the shape of a method body. *)
Ltac total_rule :=
  first
    [ apply total_bind | apply total_try_except | apply total_ret
    | apply total_log | apply total_modify | apply total_scope
    | apply total_get | apply total_peek | apply total_for_each ].

Ltac keeps_rule drv :=
  first
    [ apply keeps_bind | apply keeps_try_except | apply keeps_ret
    | apply keeps_raise | apply keeps_lift | apply keeps_log
    | apply keeps_peek | apply keeps_get
    | apply keeps_scope | apply keeps_try_finally
    | match goal with
      | |- keeps _ ?I (call _ ?c) => exact (keeps_call drv _ I c)
      end ].

Ltac emits_rule drv :=
  first
    [ apply emits_bind | apply emits_try_except | apply emits_ret
    | apply emits_raise | apply emits_lift | apply emits_log
    | apply emits_peek | apply emits_get | apply emits_modify
    | apply emits_scope | apply emits_try_finally
    | apply emits_for_each | apply emits_for_each_break
    | match goal with
      | |- emits _ ?S (call _ ?c) => exact (emits_call drv _ S c eq_refl)
      end ].

Ltac by_rules drv :=
  repeat
    match goal with
    | |- forall _, _ => intro
    | |- keeps _ _ (if ?b then _ else _) => destruct b
    | |- total _ (if ?b then _ else _) => destruct b
    | |- emits _ _ (if ?b then _ else _) => destruct b
    | |- keeps _ _ (let '(_, _) := ?p in _) => destruct p
    | |- emits _ _ (let '(_, _) := ?p in _) => destruct p
    | |- total _ _ => total_rule
    | |- keeps _ _ _ => keeps_rule drv
    | |- emits _ _ _ => emits_rule drv
    end.

(* ================================================================= *)
(** ** cleanup *)

Section CleanupProofs.

Context (drv : Driver) (L : Type).

Ltac pick_prefix :=
  first [ exists 0%nat; reflexivity | exists 1%nat; reflexivity
        | exists 2%nat; reflexivity | exists 3%nat; reflexivity ].

Ltac failed_last :=
  let c := fresh "c" in let H := fresh "H" in
  intros c H; cbn in H;
  repeat match type of H with
  | _ \/ _ => destruct H as [H|H]
  | False => contradiction
  | (_, _) = (_, _) => inversion H; subst; clear H
  end;
  try discriminate;
  (split;
   [ match goal with
     | |- exists done, ?l = _ /\ _ => exists (removelast l); cbn; split; reflexivity
     end
   | eexists; cbn; reflexivity ]).

(** C6 (as amended): [cleanup] never raises; the close calls it makes
    are, in order, an initial part of context, browser, driver (those
    that are set); when every call made returns, all of them are made;
    a call that raises is the last one made -- the close steps after it
    are skipped -- and the trace ends with the error line. *)
Theorem cleanup_closes_in_order_until_failure
    (self : FrontendCapture) (l : L) (w : W drv) :
  let o := cleanup drv self l w in
  res o = Ok tt /\
  (exists k, map fst (calls_of (events o)) = firstn k (cleanup_plan self)) /\
  (forallb snd (calls_of (events o)) = true ->
   map fst (calls_of (events o)) = cleanup_plan self) /\
  (forall c, In (c, false) (calls_of (events o)) ->
     (exists done, calls_of (events o) = (done ++ [(c, false)])%list
                   /\ forallb snd done = true) /\
     (exists msg, last (events o) (ELog INFO EmptyString) = ELog ERROR msg)).
Proof.
  destruct self as [p b c].
  unfold cleanup, cleanup_plan.
  cbv beta iota delta [context browser playwright].
  destruct c, b, p; exec drv;
    cbv beta iota zeta delta [res locals world events app calls_of map fst snd];
    (split; [reflexivity|]); (split; [pick_prefix|]);
    (split; [intro H; first [reflexivity | discriminate H]|]);
    failed_last.
Qed.

End CleanupProofs.

(** C6 (as stated) fails: when closing the context raises, neither the
    browser nor the driver is closed. *)
Lemma cleanup_failure_skips_remaining_steps :
  ~ (forall (drv : Driver) (self : FrontendCapture) (w : W drv),
       let o := cleanup drv self tt w in
       res o = Ok tt /\
       (context self = true -> exists ok, In (ECall ContextClose ok) (events o)) /\
       (browser self = true -> exists ok, In (ECall BrowserClose ok) (events o)) /\
       (playwright self = true -> exists ok, In (ECall PlaywrightStop ok) (events o))).
Proof.
  intro H.
  destruct (H context_close_fails session 0%nat) as (_ & _ & Hb & _).
  destruct (Hb eq_refl) as [ok Hin].
  cbn in Hin.
  destruct Hin as [Hin | [Hin | []]]; discriminate Hin.
Qed.


(* ================================================================= *)
(** ** interact_with_page *)

Section InteractProofs.

Context (drv : Driver).

Lemma perform_action_total (a : InteractionAction) : total drv (perform_action drv a).
Proof.
  unfold perform_action. apply total_try_except. intros e. by_rules drv.
Qed.

Lemma perform_action_keeps_action (a : InteractionAction) (name : string) :
  keeps drv (fun r => ir_action r = name) (perform_action drv a).
Proof.
  unfold perform_action.
  by_rules drv; apply keeps_modify; intros r H; exact H.
Qed.

(** One pass of the loop body: the result of the action is appended,
    whatever the action did, and the step raises exactly when the
    delay after the action does. *)
Lemma interaction_step_eq (a : InteractionAction) (acc : list InteractionResult) (w : W drv) :
  let o := perform_action drv a
             (mkInteractionResult (ia_type a) false None None (now drv w)) w in
  interaction_step drv a acc w =
  mkOut (fst (drive drv (WaitForTimeout 500) (world o)))
        (acc ++ [locals o])%list
        (snd (drive drv (WaitForTimeout 500) (world o)))
        (events o ++ [ECall (WaitForTimeout 500)
                        (is_ok (fst (drive drv (WaitForTimeout 500) (world o))))]).
Proof.
  intros o. unfold interaction_step.
  pose proof (perform_action_total a
                (mkInteractionResult (ia_type a) false None None (now drv w)) w) as Ht.
  fold o in Ht.
  rewrite (exec_bind drv). unfold peek at 1. cbv beta iota.
  rewrite (exec_bind drv). rewrite (exec_scope drv). fold o.
  destruct o as [[[]|e] r1 w1 ev1]; [|discriminate Ht].
  cbv beta iota.
  rewrite (exec_bind drv). unfold modify at 1. cbv beta iota.
  rewrite (exec_call drv).
  cbn [res locals world events prepend snd fst].
  destruct (drive drv (WaitForTimeout 500) w1) as [[[]|e] w2];
    cbn [res locals world events prepend snd fst is_ok app]; reflexivity.
Qed.

(** [r] is what running [a] on a fresh result record left in it, in a
    run whose events are among [evs]. *)
Definition outcome_of (a : InteractionAction) (r : InteractionResult)
    (evs : list Event) : Prop :=
  exists w0,
    let o := perform_action drv a
               (mkInteractionResult (ia_type a) false None None (now drv w0)) w0 in
    r = locals o /\ incl (events o) evs.

Lemma outcome_of_incl a r evs evs' :
  incl evs evs' -> outcome_of a r evs -> outcome_of a r evs'.
Proof.
  intros Hi (w0 & Hr & He). exists w0. split; [exact Hr|].
  eapply incl_tran; eassumption.
Qed.

Definition delay_never_fails : Prop :=
  forall w, is_ok (fst (drive drv (WaitForTimeout 500) w)) = true.

Lemma loop_results (actions : list InteractionAction) :
  forall (acc : list InteractionResult) (w : W drv),
    let o := for_each drv actions (interaction_step drv) acc w in
    exists rs,
      locals o = (acc ++ rs)%list /\
      Forall2 (fun a r => outcome_of a r (events o))
              (firstn (List.length rs) actions) rs /\
      (is_ok (res o) = true -> List.length rs = List.length actions) /\
      (delay_never_fails -> is_ok (res o) = true).
Proof.
  induction actions as [|a rest IH]; intros acc w o.
  - exists []. subst o. cbn. rewrite app_nil_r.
    repeat split; auto; constructor.
  - subst o. cbn [for_each]. rewrite (exec_bind drv), interaction_step_eq.
    set (o1 := perform_action drv a _ w).
    destruct (drive drv (WaitForTimeout 500) (world o1)) as [[[]|e] w2] eqn:Ed;
      cbn [fst snd is_ok].
    + destruct (IH (acc ++ [locals o1])%list w2) as (rs & Hl & Hf & Hok & Hd).
      exists (locals o1 :: rs).
      destruct (for_each drv rest (interaction_step drv) (acc ++ [locals o1])%list w2)
        as [r2 l2 w3 ev2].
      cbn [prepend res locals events world] in *.
      split; [rewrite Hl, <- app_assoc; reflexivity|].
      split.
      { cbn [List.length firstn]. constructor.
        - exists w. fold o1. split; [reflexivity|].
          intros x Hx. apply in_or_app. left. apply in_or_app. left. exact Hx.
        - eapply Forall2_impl; [|exact Hf].
          intros a' r'. apply outcome_of_incl.
          intros x Hx. apply in_or_app. right. exact Hx. }
      split.
      { intros H. cbn [List.length]. f_equal. apply Hok, H. }
      exact Hd.
    + exists [locals o1]. cbn [res locals events world].
      split; [reflexivity|].
      split.
      { cbn [List.length firstn]. constructor; [|constructor].
        exists w. fold o1. split; [reflexivity|].
        intros x Hx. apply in_or_app. left. exact Hx. }
      split; [discriminate|].
      intros Hd. specialize (Hd (world o1)). rewrite Ed in Hd. discriminate Hd.
Qed.

(** How a run of [interact_with_page] that returns is made up. *)
Lemma interact_run {L} (self : FrontendCapture) (url : string)
    (actions : list InteractionAction) (l : L) (w : W drv)
    (results : list InteractionResult) :
  res (interact_with_page drv self url actions l w) = Ok results ->
  exists w1,
    drive drv NewPage w = (Ok tt, w1) /\
    ((is_ok (fst (drive drv (Goto url (Some 30000)) w1)) = false /\ results = []) \/
     (exists w2,
        drive drv (Goto url (Some 30000)) w1 = (Ok tt, w2) /\
        let o := for_each drv actions (interaction_step drv) [] w2 in
        results = locals o /\
        incl (events o) (events (interact_with_page drv self url actions l w)))).
Proof.
  unfold interact_with_page, new_page.
  destruct (context self); [|exec drv; cbn; discriminate].
  exec drv; try (cbn; discriminate).
  - destruct a, a0.
    destruct (for_each drv actions (interaction_step drv) [] w1)
      as [[[]|e] l1 w2 ev] eqn:El;
      exec drv; try (cbn; discriminate);
      cbn; intros H; inversion H; subst;
      exists w0; (split; [reflexivity|]); right; exists w1;
      (split; [assumption|]); rewrite El; (split; [reflexivity|]);
      intros x Hx; cbn; right; right;
      repeat (apply in_or_app; left); exact Hx.
  - destruct a.
    cbn. intros H. inversion H; subst.
    exists w0. split; [reflexivity|]. left. rewrite Hdrive0. split; reflexivity.
Qed.

Lemma outcome_keeps_action a r evs : outcome_of a r evs -> ir_action r = ia_type a.
Proof.
  intros (w0 & Hr & _). rewrite Hr.
  apply (perform_action_keeps_action a (ia_type a)). reflexivity.
Qed.

Lemma outcomes_actions evs (acts : list InteractionAction) (rs : list InteractionResult) :
  Forall2 (fun a r => outcome_of a r evs) acts rs ->
  map ir_action rs = map ia_type acts.
Proof.
  induction 1 as [|a r acts rs Hr _ IH]; [reflexivity|].
  cbn. rewrite IH. f_equal. eapply outcome_keeps_action, Hr.
Qed.

(** C1 (as amended): the actions of the returned results are an
    initial part of the requested action types, in order, whatever the
    single actions did; when the first navigation fails the list is
    empty; when it succeeds and the delay after each action never
    fails, there is one result for every action. *)
Theorem interact_results_follow_actions {L} (self : FrontendCapture) (url : string)
    (actions : list InteractionAction) (l : L) (w : W drv)
    (results : list InteractionResult) :
  res (interact_with_page drv self url actions l w) = Ok results ->
  map ir_action results = firstn (List.length results) (map ia_type actions) /\
  (is_ok (fst (drive drv (Goto url (Some 30000)) (snd (drive drv NewPage w)))) = false ->
   results = []) /\
  (is_ok (fst (drive drv (Goto url (Some 30000)) (snd (drive drv NewPage w)))) = true ->
   delay_never_fails ->
   List.length results = List.length actions /\
   map ir_action results = map ia_type actions).
Proof.
  intros Hrun.
  destruct (interact_run self url actions l w results Hrun) as (w1 & Hnew & Hcase).
  rewrite Hnew. cbn [snd].
  destruct Hcase as [[Hnav Hres] | (w2 & Hnav & Hres & _)].
  - subst results. split; [reflexivity|]. split; [reflexivity|].
    intros Hok. rewrite Hnav in Hok. discriminate Hok.
  - rewrite Hnav. cbn [fst is_ok].
    destruct (loop_results actions [] w2) as (rs & Hl & Hf & Hlen & Hd).
    cbn [app] in Hl. rewrite <- Hres in Hl. subst rs.
    pose proof (outcomes_actions _ _ _ Hf) as Hmap.
    rewrite <- firstn_map in Hmap.
    split; [exact Hmap|]. split; [discriminate|].
    intros _ Hdelay.
    assert (Hall : List.length results = List.length actions) by (apply Hlen, Hd, Hdelay).
    split; [exact Hall|].
    rewrite Hmap, Hall, <- (length_map ia_type), firstn_all. reflexivity.
Qed.


(** What a [click] action without selector and without coordinates
    does: nothing, and the result is marked successful. *)
Lemma perform_click_without_target (a : InteractionAction) (r0 : InteractionResult)
    (w : W drv) :
  ia_type a = "click" ->
  truthy_str (ia_selector a) = false ->
  truthy_dict (ia_coordinates a) = false ->
  perform_action drv a r0 w = mkOut (Ok tt) (set_success true r0) w [].
Proof.
  intros Ht Hs Hc. unfold perform_action. rewrite Ht, Hs, Hc.
  change (String.eqb "click" "click") with true.
  cbv beta iota. exec drv. reflexivity.
Qed.









(** The finalizer of a [try]/[finally] runs on every exit of the body. *)
Lemma try_finally_calls_finalizer {L A} (m : M drv L A) (l : L) (w : W drv) :
  exists ok, In (ECall PageClose ok) (events (try_finally drv m (call drv PageClose) l w)).
Proof.
  rewrite (exec_try_finally drv). destruct (m l w) as [r l1 w1 ev].
  rewrite (exec_call drv). destruct (drive drv PageClose w1) as [[a|e] w2]; cbn.
  - exists true. apply in_or_app. right. left. reflexivity.
  - exists false. apply in_or_app. right. left. reflexivity.
Qed.

(** Every run of [interact_with_page] that opened a page closes it. *)
Lemma interact_closes_page {L} (self : FrontendCapture) (url : string)
    (actions : list InteractionAction) (l : L) (w : W drv) :
  In (ECall NewPage true) (events (interact_with_page drv self url actions l w)) ->
  exists ok, In (ECall PageClose ok) (events (interact_with_page drv self url actions l w)).
Proof.
  unfold interact_with_page, new_page.
  destruct (context self).
  - rewrite (exec_bind drv), (exec_scope drv), (exec_bind drv), (exec_call drv).
    destruct (drive drv NewPage w) as [[[]|e] w1]; cbv beta iota.
    + intros _.
      match goal with
      | |- context [try_finally drv ?m (call drv PageClose) ?l0 w1] =>
          destruct (try_finally_calls_finalizer m l0 w1) as [ok Hin];
          destruct (try_finally drv m (call drv PageClose) l0 w1) as [[a|e] l1 w2 ev]
      end; cbn in *; exists ok; right; try rewrite app_nil_r; exact Hin.
    + cbn. intros [H|[]]. discriminate H.
  - exec drv. cbn. intros [].
Qed.

(** Every run of [capture_frontend] that reached its [try] block closes
    the page: the page was opened and, if a viewport was given, sized. *)
Lemma capture_closes_page_after_viewport {L} (self : FrontendCapture) (url : string)
    options viewport (l : L) (w : W drv) :
  context self = true ->
  is_ok (fst (drive drv NewPage w)) = true ->
  (truthy_dict viewport = true ->
   is_ok (fst (drive drv (SetViewportSize (match viewport with Some v => v | None => [] end))
                 (snd (drive drv NewPage w)))) = true) ->
  exists ok,
    In (ECall PageClose ok) (events (capture_frontend drv self url options viewport l w)).
Proof.
  intros Hc Hn Hv. unfold capture_frontend, capture_body, new_page. rewrite Hc.
  rewrite (exec_bind drv), (exec_call drv).
  destruct (drive drv NewPage w) as [[[]|e] w1]; [|discriminate Hn].
  cbv beta iota. cbn [snd] in Hv.
  rewrite (exec_bind drv).
  destruct (truthy_dict viewport).
  - rewrite (exec_call drv).
    destruct (drive drv (SetViewportSize _) w1) as [[[]|e] w2];
      [|specialize (Hv eq_refl); discriminate Hv].
    cbv beta iota.
    match goal with
    | |- context [try_finally drv ?m (call drv PageClose) ?l0 w2] =>
        destruct (try_finally_calls_finalizer m l0 w2) as [ok Hin];
        destruct (try_finally drv m (call drv PageClose) l0 w2) as [r l1 w3 ev]
    end.
    cbn in *. exists ok. right. right. exact Hin.
  - unfold ret at 1. cbv beta iota.
    match goal with
    | |- context [try_finally drv ?m (call drv PageClose) ?l0 w1] =>
        destruct (try_finally_calls_finalizer m l0 w1) as [ok Hin];
        destruct (try_finally drv m (call drv PageClose) l0 w1) as [r l1 w3 ev]
    end.
    cbn in *. exists ok. right. exact Hin.
Qed.

End InteractProofs.

(** C1 (as stated) fails: when the first navigation fails, a call with
    one action returns no result. *)
Lemma interact_navigation_failure_returns_nothing :
  ~ (forall (drv : Driver) (self : FrontendCapture) (url : string)
            (actions : list InteractionAction) (w : W drv)
            (results : list InteractionResult),
       res (interact_with_page drv self url actions tt w) = Ok results ->
       List.length results = List.length actions /\
       map ir_action results = map ia_type actions).
Proof.
  intro H.
  destruct (H unreachable_site session "http://localhost:3000" [wait_for 1000] 0%nat []
              eq_refl) as [Hlen _].
  discriminate Hlen.
Qed.

(** A session with a click on a missing element, a wait and a fill of
    a missing field: three results, in order. *)
Lemma interact_results_follow_actions_witness :
  exists results,
    res (interact_with_page missing_elements session "http://localhost:3000"
           [click_on "#missing"; wait_for 1000; fill_in "#name" "Ada"] tt 0%nat)
    = Ok results /\
    List.length results = 3%nat /\
    map ir_action results = ["click"; "wait"; "fill"] /\
    map ir_success results = [false; true; false].
Proof.
  eexists. split; [vm_compute; reflexivity|].
  match goal with
  | |- List.length ?r = _ /\ _ =>
      destruct (interact_results_follow_actions missing_elements session
                  "http://localhost:3000"
                  [click_on "#missing"; wait_for 1000; fill_in "#name" "Ada"]
                  tt 0%nat r eq_refl) as (_ & _ & Hall)
  end.
  destruct (Hall eq_refl (fun _ => eq_refl)) as [Hlen Hmap].
  split; [exact Hlen|]. split; [exact Hmap|]. reflexivity.
Defined.



(** C9: a click that carries neither a selector nor coordinates is
    reported as successful, although nothing was clicked; the session
    goes on with the next action. *)
Theorem click_without_target_reports_success :
  let o := interact_with_page healthy session "http://localhost:3000"
             [act "click"; wait_for 250] tt 0%nat in
  exists r1 r2,
    res o = Ok [r1; r2] /\
    ir_action r1 = "click" /\ ir_success r1 = true /\ ir_error r1 = None /\
    ir_action r2 = "wait" /\ ir_success r2 = true /\
    map fst (calls_of (events o)) =
      [NewPage; Goto "http://localhost:3000" (Some 30000); WaitForTimeout 500;
       WaitForTimeout 250; WaitForTimeout 500; PageClose].
Proof.
  eexists. eexists. vm_compute. repeat split; reflexivity.
Qed.

(** C3: when sizing the viewport raises, [capture_frontend] raises with
    the page it opened still open. *)
Theorem capture_leaks_page_when_viewport_rejected :
  let o := capture_frontend rejects_viewport session "http://localhost:3000" None
             (Some [("width", 1280)]) tt 0%nat in
  is_ok (res o) = false /\
  calls_of (events o) = [(NewPage, true); (SetViewportSize [("width", 1280)], false)] /\
  existsb is_page_open (events o) = true /\
  existsb is_page_close (events o) = false.
Proof.
  vm_compute. repeat split; reflexivity.
Qed.

(* ================================================================= *)
(** ** The accessibility audit *)

(** The score formula, on an audit result. *)
Definition score_invariant (j : Json) : Prop :=
  exists issues score,
    j = JDict [("issues", JList issues); ("score", JInt score)] /\
    score = Z.max 0 (100 - 10 * Z.of_nat (List.length issues)).

Definition audit_fallback : Json := JDict [("issues", JList []); ("score", JInt 0)].

Section AuditProofs.

Context (drv : Driver).

Lemma a11y_script_result (doc : A11yDoc) (j : Json) :
  a11y_script doc = Ok j -> score_invariant j.
Proof.
  unfold a11y_script, res_bind.
  destruct (for_each_indexed image_rule 0 (doc_images doc)) as [i1|e]; [|discriminate].
  destruct (for_each_indexed input_rule 0 (doc_inputs doc)) as [i2|e]; [|discriminate].
  intros H. inversion H; subst.
  eexists. eexists. split; [reflexivity|].
  unfold a11y_score. f_equal. lia.
Qed.

(** C4 (as amended): the audit always returns an issue list and a
    score.  When the script ran, the score is
    [max(0, 100 - 10 * len(issues))]; when evaluating it failed -- the
    driver call raised or the script threw -- the result is the empty
    issue list with score 0. *)
Theorem accessibility_score_formula_or_fallback {L} (l : L) (w : W drv) :
  exists j,
    res (_analyze_accessibility drv l w) = Ok j /\
    ((exists doc w',
        drive drv EvalAccessibility w = (Ok doc, w') /\
        a11y_script doc = Ok j /\ score_invariant j)
     \/
     ((is_ok (fst (drive drv EvalAccessibility w)) = false \/
       exists doc w',
         drive drv EvalAccessibility w = (Ok doc, w') /\ is_ok (a11y_script doc) = false) /\
      j = audit_fallback)).
Proof.
  unfold _analyze_accessibility.
  rewrite (exec_try_except drv), (exec_bind drv), (exec_call drv).
  destruct (drive drv EvalAccessibility w) as [[doc|e] w1] eqn:Ed; cbv beta iota.
  - rewrite (exec_bind drv). unfold lift at 1. cbv beta iota.
    destruct (a11y_script doc) as [j|e] eqn:Es; exec drv; cbn.
    + exists j. split; [reflexivity|]. left. exists doc, w1.
      split; [reflexivity|]. split; [exact Es|]. apply (a11y_script_result doc), Es.
    + eexists. split; [reflexivity|]. right. split; [|reflexivity].
      right. exists doc, w1. split; [reflexivity|]. rewrite Es. reflexivity.
  - exec drv. cbn. eexists. split; [reflexivity|]. right. split; [|reflexivity].
    left. reflexivity.
Qed.

End AuditProofs.

(** C4 (as stated) fails: a failed evaluation yields no issues and
    score 0, where the formula gives 100. *)
Lemma accessibility_failure_breaks_score_formula :
  ~ (forall (drv : Driver) (w : W drv) (j : Json),
       res (_analyze_accessibility drv tt w) = Ok j -> score_invariant j).
Proof.
  intro H.
  destruct (H audit_fails 0%nat audit_fallback eq_refl) as (issues & score & Hj & Hs).
  unfold audit_fallback in Hj. inversion Hj as [[Hi Hz]].
  rewrite <- Hi, <- Hz in Hs. discriminate Hs.
Qed.

(* ================================================================= *)
(** ** Forms *)





Section FormProofs.

Context (drv : Driver).




End FormProofs.

(** The upper-casing leaves no lower-case letter. *)
Lemma py_upper_has_no_lower_case (s : string) :
  forallb (fun c => negb (is_lower c)) (list_ascii_of_string (py_upper s)) = true.
Proof.
  induction s as [|c s IH]; [reflexivity|].
  cbn [py_upper list_ascii_of_string forallb]. rewrite IH, andb_true_r.
  unfold upper_char. destruct (is_lower c) eqn:E; [|rewrite E; reflexivity].
  unfold is_lower in *. apply andb_true_iff in E. destruct E as [E1 E2].
  apply Nat.leb_le in E1. apply Nat.leb_le in E2.
  rewrite nat_ascii_embedding by lia.
  apply negb_true_iff, andb_false_iff. left. apply Nat.leb_gt. lia.
Qed.


Example forms_of_sample_page :
  map fe_method
    (match res (_extract_forms healthy sample_soup tt 0%nat) with
     | Ok forms => forms
     | Raise _ => []
     end) = ["POST"; "GET"].
Proof. vm_compute. reflexivity. Qed.

(* ================================================================= *)
(** ** Live interactive elements *)

(** What every extracted interactive element looks like. *)
Definition interactive_ok (e : InteractiveElement) : Prop :=
  ie_type e = "clickable" /\ ie_clickable e = true /\ ie_focusable e = false.

Section InteractiveProofs.

Context (drv : Driver).

Lemma probe_element_step (selector : string) (elem : Handle) l w :
  locals (probe_element drv selector elem l w) = l \/
  exists e, locals (probe_element drv selector elem l w) = (l ++ [e])%list /\
            ie_selector e = selector /\ interactive_ok e.
Proof.
  unfold probe_element. exec drv; cbn [locals].
  - right. eexists. split; [reflexivity|]. repeat split.
  - left. reflexivity.
  - left. reflexivity.
Qed.

Lemma probe_elements_block (selector : string) (elems : list Handle) :
  forall l w,
    exists blk,
      locals (for_each drv elems (probe_element drv selector) l w) = (l ++ blk)%list /\
      (List.length blk <= List.length elems)%nat /\
      Forall (fun e => ie_selector e = selector /\ interactive_ok e) blk.
Proof.
  induction elems as [|elem rest IH]; intros l w.
  - exists []. cbn. rewrite app_nil_r. repeat split; auto.
  - cbn [for_each]. rewrite (exec_bind drv).
    pose proof (probe_element_step selector elem l w) as Hstep.
    destruct (probe_element drv selector elem l w) as [[[]|e] l1 w1 ev1]; cbn [locals] in Hstep.
    + cbv beta iota delta [prepend].
      destruct (IH l1 w1) as (blk & Hl & Hlen & Hall).
      destruct (for_each drv rest (probe_element drv selector) l1 w1) as [r2 l2 w2 ev2].
      cbn [locals] in *.
      destruct Hstep as [-> | (e & -> & Hs & Hok)].
      * exists blk. split; [exact Hl|]. split; [cbn; lia | exact Hall].
      * exists (e :: blk). split; [rewrite Hl, <- app_assoc; reflexivity|].
        split; [cbn; lia|]. constructor; [split; assumption | exact Hall].
    + cbn [locals].
      destruct Hstep as [-> | (e' & -> & Hs & Hok)].
      * exists []. rewrite app_nil_r. repeat split; [cbn; lia | constructor].
      * exists [e']. split; [reflexivity|]. split; [cbn; lia|].
        constructor; [split; assumption | constructor].
Qed.

Lemma probe_selector_block (selector : string) l w :
  exists blk,
    locals (probe_selector drv selector l w) = (l ++ blk)%list /\
    (List.length blk <= 10)%nat /\
    Forall (fun e => ie_selector e = selector /\ interactive_ok e) blk.
Proof.
  unfold probe_selector.
  rewrite (exec_try_except drv), (exec_bind drv), (exec_call drv).
  destruct (drive drv (QuerySelectorAll selector) w) as [[elements|e] w1]; cbv beta iota.
  - destruct (probe_elements_block selector (firstn 10 elements) l w1)
      as (blk & Hl & Hlen & Hall).
    destruct (for_each drv (firstn 10 elements) (probe_element drv selector) l w1)
      as [[[]|e] l2 w2 ev2]; cbn [locals prepend] in *;
      exists blk; (split; [exact Hl|]); (split; [|exact Hall]);
      rewrite length_firstn in Hlen;
      (eapply Nat.le_trans; [exact Hlen | apply Nat.le_min_l]).
  - cbn. exists []. rewrite app_nil_r. repeat split; [apply Nat.le_0_l | constructor].
Qed.

Lemma count_selector_app s (l1 l2 : list InteractiveElement) :
  count_selector s (l1 ++ l2) = (count_selector s l1 + count_selector s l2)%nat.
Proof. unfold count_selector. rewrite filter_app, length_app. reflexivity. Qed.

Lemma count_selector_block s selector (blk : list InteractiveElement) :
  Forall (fun e => ie_selector e = selector /\ interactive_ok e) blk ->
  (count_selector s blk <= List.length blk)%nat /\
  (s <> selector -> count_selector s blk = 0%nat).
Proof.
  unfold count_selector. induction 1 as [|e blk [He _] _ IH]; [split; reflexivity|].
  destruct IH as [IH1 IH2]. cbn [filter List.length].
  destruct (String.eqb (ie_selector e) s) eqn:E; cbn [List.length].
  - split; [lia|]. intros Hne. apply String.eqb_eq in E. congruence.
  - split; [lia | exact IH2].
Qed.

Lemma count_selector_firstn s n (l : list InteractiveElement) :
  (count_selector s (firstn n l) <= count_selector s l)%nat.
Proof.
  unfold count_selector. revert n.
  induction l as [|e l IH]; intros [|n]; cbn; try lia.
  specialize (IH n). destruct (String.eqb (ie_selector e) s); cbn; lia.
Qed.

Lemma probe_selectors_loop (sels : list string) :
  NoDup sels ->
  forall l w,
    exists added,
      locals (for_each drv sels (probe_selector drv) l w) = (l ++ added)%list /\
      Forall (fun e => In (ie_selector e) sels /\ interactive_ok e) added /\
      forall s, (count_selector s added <= 10)%nat /\
                (~ In s sels -> count_selector s added = 0%nat).
Proof.
  induction 1 as [|x rest Hx _ IH]; intros l w.
  - exists []. cbn. rewrite app_nil_r. repeat split; auto; apply Nat.le_0_l.
  - cbn [for_each]. rewrite (exec_bind drv).
    destruct (probe_selector_block x l w) as (blk & Hl & Hlen & Hblk).
    assert (Hblk' : Forall (fun e => In (ie_selector e) (x :: rest) /\ interactive_ok e) blk).
    { eapply Forall_impl; [|exact Hblk]. intros e [He Hok]. split; [left; auto | exact Hok]. }
    assert (Hcount : forall s, (count_selector s blk <= 10)%nat /\
                               (~ In s (x :: rest) -> count_selector s blk = 0%nat)).
    { intros s. destruct (count_selector_block s x blk Hblk) as [H1 H2].
      split; [lia|]. intros Hn. apply H2. intros ->. apply Hn. left. reflexivity. }
    destruct (probe_selector drv x l w) as [[[]|e] l1 w1 ev1]; cbn [locals] in Hl; subst l1.
    + cbv beta iota delta [prepend].
      destruct (IH (l ++ blk)%list w1) as (added & Hl2 & Hall & Hc).
      destruct (for_each drv rest (probe_selector drv) (l ++ blk)%list w1) as [r2 l2 w2 ev2].
      cbn [locals] in *. exists (blk ++ added)%list.
      split; [rewrite Hl2, app_assoc; reflexivity|].
      split.
      { apply Forall_app. split; [exact Hblk'|].
        eapply Forall_impl; [|exact Hall]. intros e [He Hok]. split; [right; auto | exact Hok]. }
      intros s. rewrite count_selector_app.
      destruct (Hc s) as [Hc1 Hc2].
      destruct (count_selector_block s x blk Hblk) as [Hb1 Hb2].
      destruct (string_dec s x) as [->|Hne].
      * rewrite (Hc2 Hx). split; [lia|]. intros Hn. exfalso. apply Hn. left. reflexivity.
      * rewrite (Hb2 Hne). split; [lia|].
        intros Hn. apply Hc2. intros Hin. apply Hn. right. exact Hin.
    + cbn [locals]. exists blk. split; [reflexivity|]. split; [exact Hblk' | exact Hcount].
Qed.

Lemma Forall_firstn_keeps {A} (P : A -> Prop) (n : nat) (l : list A) :
  Forall P l -> Forall P (firstn n l).
Proof.
  intros H. revert n. induction H as [|x l Hx _ IH]; intros [|n]; cbn;
    constructor; auto.
Qed.

Lemma clickable_selectors_distinct : NoDup clickable_selectors.
Proof.
  vm_compute.
  repeat constructor; cbn; intros H;
    repeat match type of H with
    | _ \/ _ => destruct H as [H|H]
    | False => contradiction
    end; discriminate H.
Qed.

(** [_extract_interactive_elements] always returns; everything it
    returns was built for one of the six selectors, at most ten per
    selector and thirty in all. *)
Lemma interactive_elements_spec {L} (l : L) (w : W drv) :
  exists xs,
    res (_extract_interactive_elements drv l w) = Ok xs /\
    Forall (fun e => In (ie_selector e) clickable_selectors /\ interactive_ok e) xs /\
    (List.length xs <= 30)%nat /\
    forall s, (count_selector s xs <= 10)%nat.
Proof.
  unfold _extract_interactive_elements.
  rewrite (exec_bind drv), (exec_scope drv), (exec_try_except drv).
  destruct (probe_selectors_loop clickable_selectors clickable_selectors_distinct [] w)
    as (added & Hl & Hall & Hc).
  cbn [app] in Hl.
  destruct (for_each drv clickable_selectors (probe_selector drv) [] w) as [[[]|e] l1 w1 ev1];
    cbn [locals] in Hl; subst l1; exec drv; cbn [res prepend snd];
    (exists (firstn 30 added); split; [reflexivity|]; split;
     [apply Forall_firstn_keeps; exact Hall|]; split;
     [rewrite length_firstn; lia|];
     intros s; pose proof (count_selector_firstn s 30 added); destruct (Hc s); lia).
Qed.

(** [e] was built from the handle [elem]: its text and visibility were
    read from it, one call after the other. *)
Definition read_from (elem : Handle) (e : InteractiveElement) (evs : list Event) : Prop :=
  exists (text_content : option string) (w2 w3 w4 : W drv) pre post,
    drive drv (ElemTextContent elem) w2 = (Ok text_content, w3) /\
    drive drv (ElemIsVisible elem) w3 = (Ok (ie_visible e), w4) /\
    ie_text e = (if truthy_str text_content
                 then Some (py_strip (opt_str text_content)) else None) /\
    ie_href e = None /\
    evs = (pre ++ ECall (ElemTextContent elem) true
               :: ECall (ElemIsVisible elem) true :: post)%list.

(** The selector of [e] is the query pattern that matched it: the query
    for that pattern returned a list of handles, and [e] was built from
    one of the first ten of them, after the query. *)
Definition matched_by (e : InteractiveElement) (evs : list Event) : Prop :=
  exists (elem : Handle) (elements : list Handle) (w0 w1 : W drv) pre rest,
    drive drv (QuerySelectorAll (ie_selector e)) w0 = (Ok elements, w1) /\
    In elem (firstn 10 elements) /\
    read_from elem e rest /\
    evs = (pre ++ ECall (QuerySelectorAll (ie_selector e)) true :: rest)%list.

Lemma read_from_within elem e evs pre post :
  read_from elem e evs -> read_from elem e (pre ++ evs ++ post).
Proof.
  intros (t & w2 & w3 & w4 & pre' & post' & Ht & Hv & Htext & Hhref & He).
  exists t, w2, w3, w4, (pre ++ pre')%list, (post' ++ post)%list.
  split; [exact Ht|]. split; [exact Hv|]. split; [exact Htext|]. split; [exact Hhref|].
  rewrite He, <- !app_assoc. cbn [app]. reflexivity.
Qed.

Lemma matched_within e evs pre post :
  matched_by e evs -> matched_by e (pre ++ evs ++ post).
Proof.
  intros (elem & elements & w0 & w1 & pre' & rest & Hq & Hin & Hr & He).
  exists elem, elements, w0, w1, (pre ++ pre')%list, (rest ++ post)%list.
  split; [exact Hq|]. split; [exact Hin|].
  split.
  - pose proof (read_from_within elem e rest [] post Hr) as H. exact H.
  - rewrite He, <- !app_assoc. cbn [app]. reflexivity.
Qed.

Lemma probe_element_read (selector : string) (elem : Handle) l w :
  let o := probe_element drv selector elem l w in
  res o = Ok tt /\
  (locals o = l \/
   exists e, locals o = (l ++ [e])%list /\ ie_selector e = selector /\
             read_from elem e (events o)).
Proof.
  unfold probe_element. exec drv; cbn [locals res events app].
  - split; [reflexivity|]. right. eexists. split; [reflexivity|].
    split; [reflexivity|].
    exists a, w, w0, w1, [], []. cbn [ie_visible ie_text ie_href app].
    repeat split; assumption.
  - split; [reflexivity|]. left. reflexivity.
  - split; [reflexivity|]. left. reflexivity.
Qed.

Lemma probe_elements_read (selector : string) (elems : list Handle) :
  forall l w,
    let o := for_each drv elems (probe_element drv selector) l w in
    res o = Ok tt /\
    exists blk,
      locals o = (l ++ blk)%list /\
      Forall (fun e => ie_selector e = selector /\
                       exists elem, In elem elems /\ read_from elem e (events o)) blk.
Proof.
  induction elems as [|elem rest IH]; intros l w o; subst o.
  - cbn. split; [reflexivity|]. exists []. rewrite app_nil_r. split; [reflexivity | constructor].
  - cbn [for_each]. rewrite (exec_bind drv).
    destruct (probe_element_read selector elem l w) as (Hres & Hstep).
    destruct (probe_element drv selector elem l w) as [[[]|e] l1 w1 ev1];
      cbn [res locals events] in Hres, Hstep; [|discriminate Hres].
    cbv beta iota.
    destruct (IH l1 w1) as (Hres2 & blk & Hl & Hall).
    destruct (for_each drv rest (probe_element drv selector) l1 w1) as [r2 l2 w2 ev2].
    cbn [prepend res locals events] in *.
    split; [exact Hres2|].
    assert (Hall' : Forall (fun e => ie_selector e = selector /\
                              exists elem0, In elem0 (elem :: rest) /\
                                            read_from elem0 e (ev1 ++ ev2)) blk).
    { eapply Forall_impl; [|exact Hall].
      intros e (Hs & elem0 & Hin & Hr). split; [exact Hs|].
      exists elem0. split; [right; exact Hin|].
      pose proof (read_from_within elem0 e ev2 ev1 [] Hr) as H.
      rewrite app_nil_r in H. exact H. }
    destruct Hstep as [-> | (e & -> & Hs & Hr)].
    + exists blk. split; [exact Hl | exact Hall'].
    + exists (e :: blk). split; [rewrite Hl, <- app_assoc; reflexivity|].
      constructor; [|exact Hall'].
      split; [exact Hs|]. exists elem. split; [left; reflexivity|].
      pose proof (read_from_within elem e ev1 [] ev2 Hr) as H. exact H.
Qed.

Lemma probe_selector_matched (selector : string) l w :
  let o := probe_selector drv selector l w in
  res o = Ok tt /\
  exists blk,
    locals o = (l ++ blk)%list /\
    Forall (fun e => matched_by e (events o)) blk.
Proof.
  unfold probe_selector.
  rewrite (exec_try_except drv), (exec_bind drv), (exec_call drv).
  destruct (drive drv (QuerySelectorAll selector) w) as [[elements|e] w1] eqn:Hq;
    cbv beta iota.
  - destruct (probe_elements_read selector (firstn 10 elements) l w1)
      as (Hres & blk & Hl & Hall).
    destruct (for_each drv (firstn 10 elements) (probe_element drv selector) l w1)
      as [[[]|e] l2 w2 ev2]; cbn [res locals events prepend] in *;
      [|discriminate Hres].
    split; [reflexivity|]. exists blk. split; [exact Hl|].
    eapply Forall_impl; [|exact Hall].
    intros e (Hs & elem & Hin & Hr).
    exists elem, elements, w, w1, [], ev2. rewrite Hs.
    split; [exact Hq|]. split; [exact Hin|]. split; [exact Hr | reflexivity].
  - cbn. split; [reflexivity|]. exists []. rewrite app_nil_r.
    split; [reflexivity | constructor].
Qed.

Lemma probe_selectors_matched (sels : list string) :
  forall l w,
    let o := for_each drv sels (probe_selector drv) l w in
    res o = Ok tt /\
    exists added,
      locals o = (l ++ added)%list /\
      Forall (fun e => matched_by e (events o)) added.
Proof.
  induction sels as [|x rest IH]; intros l w o; subst o.
  - cbn. split; [reflexivity|]. exists []. rewrite app_nil_r. split; [reflexivity | constructor].
  - cbn [for_each]. rewrite (exec_bind drv).
    destruct (probe_selector_matched x l w) as (Hres & blk & Hl & Hblk).
    destruct (probe_selector drv x l w) as [[[]|e] l1 w1 ev1];
      cbn [res locals events] in Hres, Hl, Hblk; [|discriminate Hres].
    subst l1. cbv beta iota.
    destruct (IH (l ++ blk)%list w1) as (Hres2 & added & Hl2 & Hall).
    destruct (for_each drv rest (probe_selector drv) (l ++ blk)%list w1) as [r2 l2 w2 ev2].
    cbn [prepend res locals events] in *.
    split; [exact Hres2|]. exists (blk ++ added)%list.
    split; [rewrite Hl2, app_assoc; reflexivity|].
    apply Forall_app. split.
    + eapply Forall_impl; [|exact Hblk]. intros e He.
      pose proof (matched_within e ev1 [] ev2 He) as H. exact H.
    + eapply Forall_impl; [|exact Hall]. intros e He.
      pose proof (matched_within e ev2 ev1 [] He) as H.
      rewrite app_nil_r in H. exact H.
Qed.

(** Everything [_extract_interactive_elements] returns was matched by
    the query for its own selector. *)
Lemma interactive_elements_matched {L} (l : L) (w : W drv) :
  exists xs,
    res (_extract_interactive_elements drv l w) = Ok xs /\
    Forall (fun e => matched_by e (events (_extract_interactive_elements drv l w))) xs.
Proof.
  unfold _extract_interactive_elements.
  rewrite (exec_bind drv), (exec_scope drv), (exec_try_except drv).
  destruct (probe_selectors_matched clickable_selectors [] w) as (Hres & added & Hl & Hall).
  cbn [app] in Hl.
  destruct (for_each drv clickable_selectors (probe_selector drv) [] w)
    as [[[]|e] l1 w1 ev1]; cbn [res locals events] in Hres, Hl, Hall;
    [|discriminate Hres].
  subst l1. unfold ret. cbv beta iota delta [prepend]. cbn [res events snd].
  exists (firstn 30 added). split; [reflexivity|].
  apply Forall_firstn_keeps. rewrite app_nil_r. exact Hall.
Qed.

(** C10: every interactive element that [_extract_interactive_elements]
    returns has type ["clickable"], is marked clickable and not
    focusable, and carries as its selector one of the six query
    patterns: the one whose query returned the handle the element was
    built from.  The query for that pattern is in the trace, followed
    by the reading of the handle's text and visibility. *)
Theorem interactive_elements_are_generic_clickables {L} (l : L) (w : W drv) :
  exists xs,
    res (_extract_interactive_elements drv l w) = Ok xs /\
    Forall (fun e =>
              ie_type e = "clickable" /\ ie_clickable e = true /\
              ie_focusable e = false /\ In (ie_selector e) clickable_selectors /\
              matched_by e (events (_extract_interactive_elements drv l w))) xs.
Proof.
  destruct (interactive_elements_spec l w) as (xs & Hres & Hall & _).
  destruct (interactive_elements_matched l w) as (xs' & Hres' & Hm).
  rewrite Hres in Hres'. injection Hres' as <-.
  exists xs. split; [exact Hres|].
  pose proof (Forall_and Hall Hm) as H.
  eapply Forall_impl; [|exact H].
  intros e ((Hin & Ht & Hc & Hf) & He). repeat split; assumption.
Qed.

End InteractiveProofs.

(* ================================================================= *)
(** ** The collection caps of a capture *)

Definition within_caps (c : FrontendContext) : Prop :=
  (List.length (fc_elements c) <= 100)%nat /\
  (List.length (fc_buttons c) <= 20)%nat /\
  (List.length (fc_links c) <= 30)%nat /\
  (List.length (fc_interactive c) <= 30)%nat /\
  forall s, (count_selector s (fc_interactive c) <= 10)%nat.

Section CapsProofs.

Context (drv : Driver).

Lemma Ok_inj {A} (a b : A) : Ok a = Ok b -> a = b.
Proof. intros H. injection H as H. exact H. Qed.

Ltac firstn_bound :=
  unfold yields, _extract_dom_elements, _extract_buttons, _extract_links;
  intros l w a;
  rewrite (exec_bind drv);
  match goal with
  | |- context [scope drv ?l0 ?m l w] => destruct (scope drv l0 m l w) as [[r|e] l1 w1 ev1]
  end; unfold ret; cbv beta iota delta [prepend res]; [|discriminate];
  intros E; apply Ok_inj in E; subst a; rewrite length_firstn; apply Nat.le_min_l.

Lemma dom_elements_capped {L} (soup : Node) :
  yields drv (fun xs => (List.length xs <= 100)%nat) (@_extract_dom_elements drv L soup).
Proof. firstn_bound. Qed.

Lemma buttons_capped {L} (soup : Node) :
  yields drv (fun xs => (List.length xs <= 20)%nat) (@_extract_buttons drv L soup).
Proof. firstn_bound. Qed.

Lemma links_capped {L} (soup : Node) :
  yields drv (fun xs => (List.length xs <= 30)%nat) (@_extract_links drv L soup).
Proof. firstn_bound. Qed.

Lemma interactive_capped {L} :
  yields drv (fun xs => (List.length xs <= 30)%nat /\
                        forall s, (count_selector s xs <= 10)%nat)
         (@_extract_interactive_elements drv L).
Proof.
  intros l w a E.
  destruct (interactive_elements_spec drv l w) as (xs & Hres & _ & Hlen & Hc).
  rewrite Hres in E. inversion E; subst. split; assumption.
Qed.

(** The extractors touch no local of their caller. *)
Ltac callee_keeps := unfold keeps; intros; assumption.

Lemma analyze_dom_keeps_caps : keeps drv within_caps (_analyze_dom drv).
Proof.
  unfold _analyze_dom.
  apply keeps_try_except; [|intros e; apply keeps_log].
  apply keeps_bind; [exact (keeps_call drv _ _ PageContentCall)|]. intros content.
  unfold extract_all.
  apply keeps_bind; [apply keeps_modify; intros c Hc; exact Hc|]. intros _.
  apply (keeps_bind_yields drv _ _ (fun xs => (List.length xs <= 100)%nat));
    [unfold _extract_dom_elements; by_rules drv | apply dom_elements_capped |].
  intros elements He.
  apply keeps_bind;
    [apply keeps_modify; intros c (_ & H2 & H3 & H4 & H5); repeat split; assumption|].
  intros _.
  apply keeps_bind; [unfold _extract_forms; by_rules drv|]. intros forms.
  apply keeps_bind; [apply keeps_modify; intros c Hc; exact Hc|]. intros _.
  apply (keeps_bind_yields drv _ _ (fun xs => (List.length xs <= 20)%nat));
    [unfold _extract_buttons; by_rules drv | apply buttons_capped |].
  intros buttons Hb.
  apply keeps_bind;
    [apply keeps_modify; intros c (H1 & _ & H3 & H4 & H5); repeat split; assumption|].
  intros _.
  apply (keeps_bind_yields drv _ _ (fun xs => (List.length xs <= 30)%nat));
    [unfold _extract_links; by_rules drv | apply links_capped |].
  intros links Hl.
  apply keeps_bind;
    [apply keeps_modify; intros c (H1 & H2 & _ & H4 & H5); repeat split; assumption|].
  intros _.
  apply keeps_bind; [unfold _extract_inputs; by_rules drv|]. intros inputs.
  apply keeps_bind; [apply keeps_modify; intros c Hc; exact Hc|]. intros _.
  apply (keeps_bind_yields drv _ _
           (fun xs => (List.length xs <= 30)%nat /\
                      forall s, (count_selector s xs <= 10)%nat));
    [unfold _extract_interactive_elements; by_rules drv | apply interactive_capped |].
  intros interactive [Hi Hc].
  apply keeps_modify. intros c (H1 & H2 & H3 & _ & _). repeat split; assumption.
Qed.

Lemma run_stages_keeps_caps (url : string) (options : list (string * bool)) (load_time : Z) :
  keeps drv within_caps (run_stages drv url options load_time).
Proof.
  unfold run_stages, screenshot_stage, dom_stage, performance_stage,
    accessibility_stage, responsive_stage.
  apply keeps_bind.
  { destruct (dict_get_default options "screenshot" true); [|apply keeps_ret].
    apply keeps_bind; [unfold _capture_screenshot; by_rules drv|].
    intros s. apply keeps_modify. intros c Hc. exact Hc. }
  intros _. apply keeps_bind.
  { destruct (dict_get_default options "dom_analysis" true); [|apply keeps_ret].
    apply analyze_dom_keeps_caps. }
  intros _. apply keeps_bind.
  { destruct (dict_get_default options "performance" true); [|apply keeps_ret].
    apply keeps_bind; [unfold _analyze_performance; by_rules drv|].
    intros s. apply keeps_modify. intros c Hc. exact Hc. }
  intros _. apply keeps_bind.
  { destruct (dict_get_default options "accessibility" true); [|apply keeps_ret].
    apply keeps_bind; [unfold _analyze_accessibility; by_rules drv|].
    intros s. apply keeps_modify. intros c Hc. exact Hc. }
  intros _. apply keeps_bind.
  { destruct (dict_get_default options "responsive" false); [|apply keeps_ret].
    apply keeps_bind; [unfold _test_responsive; by_rules drv|].
    intros s. apply keeps_modify. intros c Hc. exact Hc. }
  intros _. apply keeps_bind; [|intros _; apply keeps_log].
  unfold _analyze_interactions.
  apply keeps_bind; [apply keeps_get|]. intros ctx.
  apply keeps_bind; [apply keeps_scope|]. intros r.
  apply keeps_modify. intros c Hc. exact Hc.
Qed.

(** C5: whatever the options, the viewport and the behaviour of the
    page, a context returned by [capture_frontend] holds at most 100
    elements, 20 buttons, 30 links and 30 interactive entries, of which
    at most 10 for any one selector. *)
Theorem captured_context_within_caps {L} (self : FrontendCapture) (url : string)
    (options : option (list (string * bool))) (viewport : option (list (string * Z)))
    (l : L) (w : W drv) (ctx : FrontendContext) :
  res (capture_frontend drv self url options viewport l w) = Ok ctx ->
  (List.length (fc_elements ctx) <= 100)%nat /\
  (List.length (fc_buttons ctx) <= 20)%nat /\
  (List.length (fc_links ctx) <= 30)%nat /\
  (List.length (fc_interactive ctx) <= 30)%nat /\
  forall selector, (count_selector selector (fc_interactive ctx) <= 10)%nat.
Proof.
  revert l w ctx. change (yields drv within_caps
    (@capture_frontend drv L self url options viewport)).
  unfold capture_frontend, capture_body.
  apply yields_bind. intros _. apply yields_bind. intros _.
  apply yields_try_finally.
  apply yields_try_except;
    [|intros e; apply yields_bind; intros _; apply yields_raise].
  do 10 (apply yields_bind; intro).
  eapply yields_bind_strong.
  - apply (yields_scope drv _ within_caps).
    + unfold within_caps, new_context. cbn.
      repeat split; try apply Nat.le_0_l. intros s. apply Nat.le_0_l.
    + apply run_stages_keeps_caps.
  - intros r Hr. apply yields_ret. exact Hr.
Qed.

End CapsProofs.

(* ================================================================= *)
(** ** Stage failures in capture_frontend *)

(** The page-level calls of [capture_frontend], outside every stage:
    opening and sizing the page, navigating, reading title and viewport,
    closing the page. *)
Definition page_calls_succeed (drv : Driver) (url : string)
    (viewport : option (list (string * Z))) : Prop :=
  (forall w, is_ok (fst (drive drv NewPage w)) = true) /\
  (truthy_dict viewport = true ->
   forall w, is_ok (fst (drive drv
       (SetViewportSize (match viewport with Some v => v | None => [] end)) w)) = true) /\
  (forall w, is_ok (fst (drive drv (Goto url (Some 30000)) w)) = true) /\
  (forall w, is_ok (fst (drive drv PageTitle w)) = true) /\
  (forall w, is_ok (viewport_field (page_viewport_size drv w) "width") = true /\
             is_ok (viewport_field (page_viewport_size drv w) "height") = true) /\
  (forall w, is_ok (fst (drive drv PageClose w)) = true).

Definition enabled (options : option (list (string * bool))) (stage : string)
    (dflt : bool) : bool :=
  dict_get_default (match options with None => default_options | Some o => o end)
                   stage dflt.

(** The collections and the markup are as declared in models.py. *)
Definition dom_defaults (c : FrontendContext) : Prop :=
  fc_elements c = [] /\ fc_forms c = [] /\ fc_buttons c = [] /\ fc_links c = [] /\
  fc_inputs c = [] /\ fc_interactive c = [] /\ fc_raw_html c = None.

Definition performance_fallback (c : FrontendContext) : Prop :=
  exists load_time,
    fc_performance c = Some (mkPerformanceMetrics load_time None None None [] []).

Definition ran (c : Call) (evs : list Event) : Prop :=
  exists ok, In (ECall c ok) evs.

Definition failed (c : Call) (evs : list Event) : Prop :=
  In (ECall c false) evs.

(** The calls [capture_frontend] makes on the page outside the stages. *)
Definition page_level (c : Call) : bool :=
  match c with
  | NewPage | Goto _ _ | PageTitle | PageClose => true
  | _ => false
  end.

Section StageProofs.

Context (drv : Driver).

Lemma locals_prepend {L A} evs (o : Out drv L A) : locals (prepend drv evs o) = locals o.
Proof. destruct o; reflexivity. Qed.

Lemma res_prepend {L A} evs (o : Out drv L A) : res (prepend drv evs o) = res o.
Proof. destruct o; reflexivity. Qed.

Lemma events_prepend {L A} evs (o : Out drv L A) :
  events (prepend drv evs o) = (evs ++ events o)%list.
Proof. destruct o; reflexivity. Qed.

Lemma world_prepend {L A} evs (o : Out drv L A) : world (prepend drv evs o) = world o.
Proof. destruct o; reflexivity. Qed.

(** Sequencing after a step that never raises. *)
Lemma exec_seq {L B} (m : M drv L unit) (k : M drv L B) l w :
  total drv m ->
  bind drv m (fun _ => k) l w =
  prepend drv (events (m l w)) (k (locals (m l w)) (world (m l w))).
Proof.
  intros Ht. rewrite (exec_bind drv). specialize (Ht l w).
  destruct (m l w) as [[[]|e] l1 w1 ev1]; [reflexivity | discriminate Ht].
Qed.

(** *** Every stage absorbs its failures *)

Lemma screenshot_stage_total options : total drv (screenshot_stage drv options).
Proof. unfold screenshot_stage, _capture_screenshot. by_rules drv. Qed.

Lemma dom_stage_total options : total drv (dom_stage drv options).
Proof. unfold dom_stage, _analyze_dom. by_rules drv. Qed.

Lemma performance_stage_total options lt : total drv (performance_stage drv options lt).
Proof. unfold performance_stage, _analyze_performance. by_rules drv. Qed.

Lemma accessibility_stage_total options : total drv (accessibility_stage drv options).
Proof. unfold accessibility_stage, _analyze_accessibility. by_rules drv. Qed.

Lemma responsive_stage_total options : total drv (responsive_stage drv options).
Proof. unfold responsive_stage, _test_responsive. by_rules drv. Qed.

Lemma analyze_interactions_total : total drv (_analyze_interactions drv).
Proof. unfold _analyze_interactions. by_rules drv. Qed.

(** The stages of one capture, as they follow each other. *)
Lemma run_stages_exec url options lt (c0 : FrontendContext) (w0 : W drv) :
  let o1 := screenshot_stage drv options c0 w0 in
  let o2 := dom_stage drv options (locals o1) (world o1) in
  let o3 := performance_stage drv options lt (locals o2) (world o2) in
  let o4 := accessibility_stage drv options (locals o3) (world o3) in
  let o5 := responsive_stage drv options (locals o4) (world o4) in
  let o6 := _analyze_interactions drv (locals o5) (world o5) in
  res (run_stages drv url options lt c0 w0) = Ok tt /\
  locals (run_stages drv url options lt c0 w0) = locals o6 /\
  events (run_stages drv url options lt c0 w0) =
    (events o1 ++ events o2 ++ events o3 ++ events o4 ++ events o5 ++ events o6 ++
     [ELog INFO ("Successfully captured context for " ++ url)])%list.
Proof.
  intros o1 o2 o3 o4 o5 o6. unfold run_stages.
  rewrite (exec_seq _ _ _ _ (screenshot_stage_total options)). fold o1.
  rewrite (exec_seq _ _ _ _ (dom_stage_total options)). fold o2.
  rewrite (exec_seq _ _ _ _ (performance_stage_total options lt)). fold o3.
  rewrite (exec_seq _ _ _ _ (accessibility_stage_total options)). fold o4.
  rewrite (exec_seq _ _ _ _ (responsive_stage_total options)). fold o5.
  rewrite (exec_seq _ _ _ _ analyze_interactions_total). fold o6.
  rewrite !res_prepend, !locals_prepend, !events_prepend.
  repeat split; reflexivity.
Qed.

End StageProofs.

(** A page with forty blocks, each holding a link and a button. *)
Definition crowded_soup : Node :=
  Tag "[document]" []
    (repeat (Tag "div" [("class", AList ["card"])]
               [ Tag "a" [("href", AStr "/item")] [NavStr "item"];
                 Tag "button" [("id", AStr "buy")] [NavStr "Buy"] ]) 40).

Definition crowded : Driver := scripted (fun _ => false) crowded_soup.

(** A capture of the crowded page returns, and keeps every cap. *)
Lemma captured_context_within_caps_witness :
  match res (capture_frontend crowded session "http://localhost:3000" None None tt 0%nat) with
  | Ok ctx =>
      (List.length (fc_elements ctx) <= 100)%nat /\
      (List.length (fc_buttons ctx) <= 20)%nat /\
      (List.length (fc_links ctx) <= 30)%nat /\
      (List.length (fc_interactive ctx) <= 30)%nat /\
      forall selector, (count_selector selector (fc_interactive ctx) <= 10)%nat
  | Raise _ => False
  end.
Proof.
  destruct (res (capture_frontend crowded session "http://localhost:3000" None None tt 0%nat))
    as [ctx|e] eqn:E.
  - exact (captured_context_within_caps crowded session "http://localhost:3000"
             None None tt 0%nat ctx E).
  - vm_compute in E. discriminate E.
Defined.

Example crowded_capture_reaches_the_caps :
  match res (capture_frontend crowded session "http://localhost:3000" None None tt 0%nat) with
  | Ok ctx =>
      (List.length (fc_elements ctx), List.length (fc_buttons ctx),
       List.length (fc_links ctx), List.length (fc_interactive ctx))
  | Raise _ => (0, 0, 0, 0)%nat
  end = (100, 20, 30, 30)%nat.
Proof. vm_compute. reflexivity. Qed.

(** The driver calls each stage may make. *)
Definition screenshot_calls (c : Call) : bool :=
  match c with PageScreenshot => true | _ => false end.

Definition dom_calls (c : Call) : bool :=
  match c with
  | PageContentCall | QuerySelectorAll _ | ElemTextContent _ | ElemIsVisible _ => true
  | _ => false
  end.

Definition extract_calls (c : Call) : bool :=
  match c with
  | QuerySelectorAll _ | ElemTextContent _ | ElemIsVisible _ => true
  | _ => false
  end.

Definition performance_calls (c : Call) : bool :=
  match c with EvalPerformance => true | _ => false end.

Definition accessibility_calls (c : Call) : bool :=
  match c with EvalAccessibility => true | _ => false end.

Definition responsive_calls (c : Call) : bool :=
  match c with
  | SetViewportSize _ | WaitForTimeout _ | EvalOverflow => true
  | _ => false
  end.

Definition interactions_calls (c : Call) : bool :=
  match c with
  | QuerySelectorAll _ | EvalScrollHeight | EvalClientHeight
  | ElemGetAttribute _ _ | ElemTextContent _ => true
  | _ => false
  end.

Definition opening_calls (c : Call) : bool :=
  match c with
  | NewPage | SetViewportSize _ | Goto _ _ | PageTitle => true
  | _ => false
  end.

Section FootprintProofs.

Context (drv : Driver).

Lemma emits_silent {L A} (S : Call -> bool) (m : M drv L A) (c : Call) l w ok :
  emits drv S m -> S c = false -> ~ In (ECall c ok) (events (m l w)).
Proof.
  intros Hm Hc Hin. specialize (Hm l w).
  rewrite Forall_forall in Hm. specialize (Hm _ Hin). cbn in Hm. congruence.
Qed.

Lemma emits_weaken {L A} (S S' : Call -> bool) (m : M drv L A) :
  (forall c, S c = true -> S' c = true) -> emits drv S m -> emits drv S' m.
Proof.
  intros Hs Hm l w. eapply Forall_impl; [|apply Hm].
  intros [c ok|lvl msg]; cbn; auto.
Qed.

Lemma extract_all_emits content : emits drv extract_calls (extract_all drv content).
Proof.
  unfold extract_all, _extract_dom_elements, _extract_forms, _extract_buttons,
    _extract_links, _extract_inputs, _extract_interactive_elements,
    probe_selector, probe_element.
  by_rules drv.
Qed.

Lemma screenshot_stage_emits options :
  emits drv screenshot_calls (screenshot_stage drv options).
Proof. unfold screenshot_stage, _capture_screenshot. by_rules drv. Qed.

Lemma dom_stage_emits options : emits drv dom_calls (dom_stage drv options).
Proof.
  unfold dom_stage, _analyze_dom, extract_all, _extract_dom_elements, _extract_forms,
    _extract_buttons, _extract_links, _extract_inputs, _extract_interactive_elements,
    probe_selector, probe_element.
  by_rules drv.
Qed.

Lemma performance_stage_emits options lt :
  emits drv performance_calls (performance_stage drv options lt).
Proof. unfold performance_stage, _analyze_performance. by_rules drv. Qed.

Lemma accessibility_stage_emits options :
  emits drv accessibility_calls (accessibility_stage drv options).
Proof. unfold accessibility_stage, _analyze_accessibility. by_rules drv. Qed.

Lemma responsive_stage_emits options :
  emits drv responsive_calls (responsive_stage drv options).
Proof.
  unfold responsive_stage, _test_responsive. by_rules drv.
Qed.

Lemma analyze_interactions_emits :
  emits drv interactions_calls (_analyze_interactions drv).
Proof. unfold _analyze_interactions. by_rules drv. Qed.

End FootprintProofs.

Section AbsorbProofs.

Context (drv : Driver).

Ltac frame :=
  unfold screenshot_stage, dom_stage, performance_stage, accessibility_stage,
    responsive_stage, _analyze_interactions, _analyze_dom, extract_all,
    _capture_screenshot, _analyze_performance, _analyze_accessibility,
    _test_responsive, _extract_dom_elements, _extract_forms, _extract_buttons,
    _extract_links, _extract_inputs, _extract_interactive_elements;
  by_rules drv; apply keeps_modify; intros c H; exact H.

(** *** What a stage leaves in the context when its call fails *)

Lemma screenshot_stage_spec options (c : FrontendContext) (w : W drv) :
  dict_get_default options "screenshot" true = true ->
  let o := screenshot_stage drv options c w in
  ran PageScreenshot (events o) /\
  (failed PageScreenshot (events o) -> fc_screenshot (locals o) = Some EmptyString).
Proof.
  intros Hen. unfold screenshot_stage. rewrite Hen. unfold _capture_screenshot.
  exec drv; cbn [events locals app].
  - split; [exists true; left; reflexivity|].
    intros [H|[]]. discriminate H.
  - split; [exists false; left; reflexivity|]. intros _. reflexivity.
Qed.

Lemma dom_stage_spec options (c : FrontendContext) (w : W drv) :
  dict_get_default options "dom_analysis" true = true ->
  let o := dom_stage drv options c w in
  ran PageContentCall (events o) /\
  (dom_defaults c -> failed PageContentCall (events o) -> dom_defaults (locals o)).
Proof.
  intros Hen. unfold dom_stage. rewrite Hen. unfold _analyze_dom.
  rewrite (exec_try_except drv), (exec_bind drv), (exec_call drv).
  destruct (drive drv PageContentCall w) as [[content|e] w1]; cbv beta iota.
  - pose proof (emits_silent drv extract_calls (extract_all drv content)
                  PageContentCall c w1 false (extract_all_emits drv content) eq_refl)
      as Hsilent.
    destruct (extract_all drv content c w1) as [[[]|e] l1 w2 ev];
      cbv beta iota delta [prepend]; exec drv; cbn [events locals app] in *;
      (split; [exists true; left; reflexivity|]);
      intros _ [H|H]; try discriminate H; exfalso; apply Hsilent.
    + exact H.
    + apply in_app_or in H. destruct H as [H|[H|[]]]; [exact H | discriminate H].
  - exec drv. cbn [events locals app].
    split; [exists false; left; reflexivity|]. intros Hd _. exact Hd.
Qed.

Lemma performance_stage_spec options lt (c : FrontendContext) (w : W drv) :
  dict_get_default options "performance" true = true ->
  let o := performance_stage drv options lt c w in
  ran EvalPerformance (events o) /\
  (failed EvalPerformance (events o) -> performance_fallback (locals o)).
Proof.
  intros Hen. unfold performance_stage. rewrite Hen. unfold _analyze_performance.
  exec drv; cbn [events locals app].
  - split; [exists true; left; reflexivity|].
    intros [H|[]]. discriminate H.
  - split; [exists false; left; reflexivity|]. intros _. exists lt. reflexivity.
Qed.

Lemma accessibility_stage_spec options (c : FrontendContext) (w : W drv) :
  dict_get_default options "accessibility" true = true ->
  let o := accessibility_stage drv options c w in
  ran EvalAccessibility (events o) /\
  (failed EvalAccessibility (events o) -> fc_accessibility (locals o) = audit_fallback).
Proof.
  intros Hen. unfold accessibility_stage. rewrite Hen. unfold _analyze_accessibility.
  rewrite (exec_bind drv), (exec_try_except drv), (exec_bind drv), (exec_call drv).
  destruct (drive drv EvalAccessibility w) as [[doc|e] w1]; cbv beta iota.
  - rewrite (exec_bind drv). unfold lift at 1. cbv beta iota.
    destruct (a11y_script doc) as [j|e]; exec drv; cbn [events locals app];
      (split; [exists true; left; reflexivity|]).
    + intros [H|[]]. discriminate H.
    + intros _. reflexivity.
  - exec drv. cbn [events locals app].
    split; [exists false; left; reflexivity|]. intros _. reflexivity.
Qed.

(** *** The first driver call of a method body *)

Definition starts_with {L A} (c : Call) (m : M drv L A) : Prop :=
  forall l w, exists ok rest, events (m l w) = ECall c ok :: rest.

Lemma starts_ran {L A} (c : Call) (m : M drv L A) l w :
  starts_with c m -> ran c (events (m l w)).
Proof.
  intros H. destruct (H l w) as (ok & rest & E). exists ok. rewrite E. left. reflexivity.
Qed.

Lemma starts_call {L} (c : Call) : starts_with c (@call drv L c).
Proof.
  intros l w. rewrite (exec_call drv).
  destruct (drive drv c w) as [[a|e] w1]; eexists; eexists; reflexivity.
Qed.

Lemma starts_bind {L A B} (c : Call) (m : M drv L A) (f : A -> M drv L B) :
  starts_with c m -> starts_with c (bind drv m f).
Proof.
  intros H l w. rewrite (exec_bind drv).
  destruct (H l w) as (ok & rest & E).
  destruct (m l w) as [[a|e] l1 w1 ev]; cbn [events] in E; subst ev.
  - destruct (f a l1 w1) as [r2 l2 w2 ev2]. cbn. eexists; eexists; reflexivity.
  - cbn. eexists; eexists; reflexivity.
Qed.

Lemma starts_after_get {L B} (c : Call) (f : L -> M drv L B) :
  (forall a, starts_with c (f a)) -> starts_with c (bind drv (get drv) f).
Proof.
  intros H l w. rewrite (exec_bind drv). unfold get. cbv beta iota.
  destruct (H l l w) as (ok & rest & E).
  destruct (f l l w) as [r2 l2 w2 ev2]. cbn in *. subst ev2.
  eexists; eexists; reflexivity.
Qed.

Lemma starts_try_except {L A} (c : Call) (m : M drv L A) (h : Exc -> M drv L A) :
  starts_with c m -> starts_with c (try_except drv m h).
Proof.
  intros H l w. rewrite (exec_try_except drv).
  destruct (H l w) as (ok & rest & E).
  destruct (m l w) as [[a|e] l1 w1 ev]; cbn [events] in E; subst ev.
  - cbn. eexists; eexists; reflexivity.
  - destruct (h e l1 w1) as [r2 l2 w2 ev2]. cbn. eexists; eexists; reflexivity.
Qed.

Lemma starts_scope {L L' A} (c : Call) (l0 : L') (m : M drv L' A) :
  starts_with c m -> starts_with c (@scope drv L L' A l0 m).
Proof.
  intros H l w. rewrite (exec_scope drv).
  destruct (H l0 w) as (ok & rest & E).
  destruct (m l0 w) as [[a|e] l1 w1 ev]; cbn [events] in E; subst ev;
    cbn; eexists; eexists; reflexivity.
Qed.

Lemma starts_for_each {L X} (c : Call) (x : X) (xs : list X) (body : X -> M drv L unit) :
  starts_with c (body x) -> starts_with c (for_each drv (x :: xs) body).
Proof. intros H. cbn [for_each]. apply starts_bind, H. Qed.

Lemma responsive_stage_spec options (c : FrontendContext) (w : W drv) :
  dict_get_default options "responsive" false = true ->
  ran (SetViewportSize [("width", 375); ("height", 667)])
      (events (responsive_stage drv options c w)).
Proof.
  intros Hen. unfold responsive_stage. rewrite Hen. unfold _test_responsive, breakpoints.
  apply starts_ran.
  apply starts_bind, starts_bind, starts_scope, starts_try_except, starts_for_each.
  apply starts_bind.
  exact (starts_call (SetViewportSize [("width", 375); ("height", 667)])).
Qed.

Lemma analyze_interactions_spec (c : FrontendContext) (w : W drv) :
  ran (QuerySelectorAll clickable_query) (events (_analyze_interactions drv c w)).
Proof.
  unfold _analyze_interactions. apply starts_ran.
  apply starts_after_get. intros ctx.
  apply starts_bind, starts_scope, starts_try_except, starts_bind.
  exact (starts_call (QuerySelectorAll clickable_query)).
Qed.

End AbsorbProofs.

Section CaptureProofs.

Context (drv : Driver).

Ltac frame :=
  unfold screenshot_stage, dom_stage, performance_stage, accessibility_stage,
    responsive_stage, _analyze_interactions, _analyze_dom, extract_all,
    _capture_screenshot, _analyze_performance, _analyze_accessibility,
    _test_responsive, _extract_dom_elements, _extract_forms, _extract_buttons,
    _extract_links, _extract_inputs, _extract_interactive_elements;
  by_rules drv; apply keeps_modify;
  (let c := fresh "c" in let Hc := fresh "Hc" in intros c Hc; exact Hc).

Ltac split_events H :=
  apply in_app_or in H; destruct H as [H|H];
  [| apply in_app_or in H; destruct H as [H|H];
     [| apply in_app_or in H; destruct H as [H|H];
        [| apply in_app_or in H; destruct H as [H|H];
           [| apply in_app_or in H; destruct H as [H|H];
              [| apply in_app_or in H; destruct H as [H|H] ]]]]].

Ltac elsewhere :=
  exfalso;
  match goal with
  | Hin : In (ECall ?c ?ok) _ |- _ =>
      first
        [ exact (emits_silent drv screenshot_calls _ c _ _ ok
                   (screenshot_stage_emits drv _) eq_refl Hin)
        | exact (emits_silent drv dom_calls _ c _ _ ok
                   (dom_stage_emits drv _) eq_refl Hin)
        | exact (emits_silent drv performance_calls _ c _ _ ok
                   (performance_stage_emits drv _ _) eq_refl Hin)
        | exact (emits_silent drv accessibility_calls _ c _ _ ok
                   (accessibility_stage_emits drv _) eq_refl Hin)
        | exact (emits_silent drv responsive_calls _ c _ _ ok
                   (responsive_stage_emits drv _) eq_refl Hin)
        | exact (emits_silent drv interactions_calls _ c _ _ ok
                   (analyze_interactions_emits drv) eq_refl Hin)
        | (let E := fresh "E" in destruct Hin as [E|[]]; discriminate E) ]
  end.

(** The fallback a failed stage leaves is still there when the stages
    are over. *)
Lemma run_stages_fallbacks url options lt (c0 : FrontendContext) (w0 : W drv) :
  dom_defaults c0 ->
  let o := run_stages drv url options lt c0 w0 in
  (failed PageScreenshot (events o) -> fc_screenshot (locals o) = Some EmptyString) /\
  (failed PageContentCall (events o) -> dom_defaults (locals o)) /\
  (failed EvalPerformance (events o) -> performance_fallback (locals o)) /\
  (failed EvalAccessibility (events o) -> fc_accessibility (locals o) = audit_fallback).
Proof.
  intros Hd0 o. subst o.
  destruct (run_stages_exec drv url options lt c0 w0) as (_ & Hl & He).
  rewrite Hl, He. clear Hl He.
  set (o1 := screenshot_stage drv options c0 w0).
  set (o2 := dom_stage drv options (locals o1) (world o1)).
  set (o3 := performance_stage drv options lt (locals o2) (world o2)).
  set (o4 := accessibility_stage drv options (locals o3) (world o3)).
  set (o5 := responsive_stage drv options (locals o4) (world o4)).
  set (o6 := _analyze_interactions drv (locals o5) (world o5)).
  unfold failed.
  (split; [|split; [|split]]); intros H; split_events H; try elsewhere.
  - assert (H1 : fc_screenshot (locals o1) = Some EmptyString).
    { destruct (dict_get_default options "screenshot" true) eqn:En.
      - apply (screenshot_stage_spec drv options c0 w0 En), H.
      - exfalso. revert H. unfold o1, screenshot_stage. rewrite En. cbn. auto. }
    assert (K2 : keeps drv (fun c => fc_screenshot c = Some EmptyString)
                   (dom_stage drv options)) by frame.
    assert (K3 : keeps drv (fun c => fc_screenshot c = Some EmptyString)
                   (performance_stage drv options lt)) by frame.
    assert (K4 : keeps drv (fun c => fc_screenshot c = Some EmptyString)
                   (accessibility_stage drv options)) by frame.
    assert (K5 : keeps drv (fun c => fc_screenshot c = Some EmptyString)
                   (responsive_stage drv options)) by frame.
    assert (K6 : keeps drv (fun c => fc_screenshot c = Some EmptyString)
                   (_analyze_interactions drv)) by frame.
    apply K6, K5, K4, K3, K2, H1.
  - assert (K1 : keeps drv dom_defaults (screenshot_stage drv options)) by frame.
    assert (H2 : dom_defaults (locals o2)).
    { destruct (dict_get_default options "dom_analysis" true) eqn:En.
      - apply (dom_stage_spec drv options (locals o1) (world o1) En); [|exact H].
        apply K1, Hd0.
      - exfalso. revert H. unfold o2, dom_stage. rewrite En. cbn. auto. }
    assert (K3 : keeps drv dom_defaults (performance_stage drv options lt)) by frame.
    assert (K4 : keeps drv dom_defaults (accessibility_stage drv options)) by frame.
    assert (K5 : keeps drv dom_defaults (responsive_stage drv options)) by frame.
    assert (K6 : keeps drv dom_defaults (_analyze_interactions drv)) by frame.
    apply K6, K5, K4, K3, H2.
  - assert (H3 : performance_fallback (locals o3)).
    { destruct (dict_get_default options "performance" true) eqn:En.
      - apply (performance_stage_spec drv options lt (locals o2) (world o2) En), H.
      - exfalso. revert H. unfold o3, performance_stage. rewrite En. cbn. auto. }
    assert (K4 : keeps drv performance_fallback (accessibility_stage drv options)) by frame.
    assert (K5 : keeps drv performance_fallback (responsive_stage drv options)) by frame.
    assert (K6 : keeps drv performance_fallback (_analyze_interactions drv)) by frame.
    apply K6, K5, K4, H3.
  - assert (H4 : fc_accessibility (locals o4) = audit_fallback).
    { destruct (dict_get_default options "accessibility" true) eqn:En.
      - apply (accessibility_stage_spec drv options (locals o3) (world o3) En), H.
      - exfalso. revert H. unfold o4, accessibility_stage. rewrite En. cbn. auto. }
    assert (K5 : keeps drv (fun c => fc_accessibility c = audit_fallback)
                   (responsive_stage drv options)) by frame.
    assert (K6 : keeps drv (fun c => fc_accessibility c = audit_fallback)
                   (_analyze_interactions drv)) by frame.
    apply K6, K5, H4.
Qed.

Lemma ran_app_l c (a b : list Event) : ran c a -> ran c (a ++ b).
Proof. intros [ok H]. exists ok. apply in_or_app. left. exact H. Qed.

Lemma ran_app_r c (a b : list Event) : ran c b -> ran c (a ++ b).
Proof. intros [ok H]. exists ok. apply in_or_app. right. exact H. Qed.

(** Every enabled stage is entered, whatever the stages before it did. *)
Lemma run_stages_runs_all url options lt (c0 : FrontendContext) (w0 : W drv) :
  let o := run_stages drv url options lt c0 w0 in
  (dict_get_default options "screenshot" true = true -> ran PageScreenshot (events o)) /\
  (dict_get_default options "dom_analysis" true = true -> ran PageContentCall (events o)) /\
  (dict_get_default options "performance" true = true -> ran EvalPerformance (events o)) /\
  (dict_get_default options "accessibility" true = true ->
   ran EvalAccessibility (events o)) /\
  (dict_get_default options "responsive" false = true ->
   ran (SetViewportSize [("width", 375); ("height", 667)]) (events o)) /\
  ran (QuerySelectorAll clickable_query) (events o).
Proof.
  intros o. subst o.
  destruct (run_stages_exec drv url options lt c0 w0) as (_ & _ & He).
  rewrite He. clear He.
  split; [|split; [|split; [|split; [|split]]]].
  - intros En. apply ran_app_l. apply (screenshot_stage_spec drv options c0 w0 En).
  - intros En. apply ran_app_r, ran_app_l.
    apply (dom_stage_spec drv options _ _ En).
  - intros En. do 2 apply ran_app_r. apply ran_app_l.
    apply (performance_stage_spec drv options lt _ _ En).
  - intros En. do 3 apply ran_app_r. apply ran_app_l.
    apply (accessibility_stage_spec drv options _ _ En).
  - intros En. do 4 apply ran_app_r. apply ran_app_l.
    apply (responsive_stage_spec drv options _ _ En).
  - do 5 apply ran_app_r. apply ran_app_l. apply analyze_interactions_spec.
Qed.

Ltac call_ok H :=
  rewrite (exec_bind drv), (exec_call drv);
  match goal with
  | |- context [drive drv ?c ?w] =>
      let Hw := fresh "Hw" in
      pose proof (H w) as Hw;
      destruct (drive drv c w) as [[?|?] ?]; [clear Hw | discriminate Hw]
  end; cbv beta iota.

Ltac peek_step := rewrite (exec_bind drv); unfold peek at 1; cbv beta iota.

Lemma capture_body_run {L} (url : string) (options : list (string * bool))
    (viewport : option (list (string * Z))) (l : L) (w : W drv) :
  page_calls_succeed drv url viewport ->
  exists ctx0 w0 lt w',
    dom_defaults ctx0 /\
    let o := run_stages drv url options lt ctx0 w0 in
    capture_body drv url options l w =
    mkOut (Ok (locals o)) l w'
      ([ECall (Goto url (Some 30000)) true; ECall PageTitle true] ++ events o ++
       [ECall PageClose true])%list.
Proof.
  intros (Hnew & Hvp & Hgoto & Htitle & Hsize & Hclose).
  unfold capture_body.
  rewrite (exec_try_finally drv), (exec_try_except drv).
  peek_step. call_ok Hgoto. peek_step. call_ok Htitle. peek_step. peek_step. peek_step.
  match goal with
  | |- context [viewport_field (page_viewport_size drv ?w3) "width"] =>
      destruct (Hsize w3) as [Hw Hh];
      rewrite (exec_bind drv); unfold lift at 1; cbv beta iota;
      destruct (viewport_field (page_viewport_size drv w3) "width") as [width|e];
        [|discriminate Hw];
      rewrite (exec_bind drv); unfold lift at 1; cbv beta iota;
      destruct (viewport_field (page_viewport_size drv w3) "height") as [height|e];
        [|discriminate Hh]
  end.
  peek_step.
  rewrite (exec_bind drv), (exec_scope drv).
  match goal with
  | |- context [run_stages drv url options ?lt ?c0 ?w0] =>
      exists c0, w0, lt;
      destruct (run_stages_exec drv url options lt c0 w0) as (Hres & _);
      destruct (run_stages drv url options lt c0 w0) as [[[]|e] c6 w6 ev6];
        [|discriminate Hres]
  end.
  unfold ret. cbv beta iota delta [prepend].
  rewrite (exec_call drv).
  pose proof (Hclose w6) as Hc.
  destruct (drive drv PageClose w6) as [[[]|e] w7]; [|discriminate Hc].
  exists w7. split; [repeat split|].
  cbn. rewrite app_nil_r. reflexivity.
Qed.

(** A capture whose page-level calls succeed: its result and its trace
    are those of the stages, between the opening calls and the close. *)
Lemma capture_run {L} (self : FrontendCapture) (url : string)
    (options : option (list (string * bool))) (viewport : option (list (string * Z)))
    (l : L) (w : W drv) :
  context self = true ->
  page_calls_succeed drv url viewport ->
  exists ctx0 w0 lt pre w',
    dom_defaults ctx0 /\
    (forall c, ~ In (ECall c false) pre) /\
    let o := run_stages drv url
               (match options with None => default_options | Some o => o end)
               lt ctx0 w0 in
    capture_frontend drv self url options viewport l w =
    mkOut (Ok (locals o)) l w' (pre ++ events o ++ [ECall PageClose true])%list.
Proof.
  intros Hc Hpage. pose proof Hpage as (Hnew & Hvp & _).
  unfold capture_frontend, new_page. rewrite Hc.
  call_ok Hnew.
  rewrite (exec_bind drv).
  destruct (truthy_dict viewport).
  - rewrite (exec_call drv).
    match goal with
    | |- context [drive drv ?c ?w1] =>
        pose proof (Hvp eq_refl w1) as Hw;
        destruct (drive drv c w1) as [[[]|e] w2]; [|discriminate Hw]
    end.
    cbv beta iota.
    destruct (capture_body_run url
                (match options with None => default_options | Some o => o end)
                viewport l w2 Hpage) as (ctx0 & w0' & lt & w' & Hd & Heq).
    cbv zeta in Heq. rewrite Heq. cbv beta iota delta [prepend].
    exists ctx0, w0', lt,
      [ECall NewPage true;
       ECall (SetViewportSize (match viewport with Some v => v | None => [] end)) true;
       ECall (Goto url (Some 30000)) true; ECall PageTitle true], w'.
    split; [exact Hd|]. split; [|reflexivity].
    intros c [H|[H|[H|[H|[]]]]]; discriminate H.
  - unfold ret at 1. cbv beta iota.
    destruct (capture_body_run url
                (match options with None => default_options | Some o => o end)
                viewport l w0 Hpage) as (ctx0 & w0' & lt & w' & Hd & Heq).
    cbv zeta in Heq. rewrite Heq. cbv beta iota delta [prepend].
    exists ctx0, w0', lt,
      [ECall NewPage true; ECall (Goto url (Some 30000)) true; ECall PageTitle true], w'.
    split; [exact Hd|]. split; [|reflexivity].
    intros c [H|[H|[H|[]]]]; discriminate H.
Qed.

Lemma failed_between c (pre ev : list Event) :
  (forall c', ~ In (ECall c' false) pre) ->
  failed c (pre ++ ev ++ [ECall PageClose true]) -> failed c ev.
Proof.
  intros Hpre H. unfold failed in *.
  apply in_app_or in H. destruct H as [H|H]; [exfalso; apply (Hpre c), H|].
  apply in_app_or in H. destruct H as [H|[H|[]]]; [exact H | discriminate H].
Qed.

Lemma run_stages_page_level url options lt :
  emits drv (fun c => negb (page_level c)) (run_stages drv url options lt).
Proof.
  unfold run_stages.
  apply emits_bind;
    [eapply emits_weaken; [|apply screenshot_stage_emits]; intros [] H; try discriminate H; reflexivity|].
  intros _. apply emits_bind;
    [eapply emits_weaken; [|apply dom_stage_emits]; intros [] H; try discriminate H; reflexivity|].
  intros _. apply emits_bind;
    [eapply emits_weaken; [|apply performance_stage_emits]; intros [] H; try discriminate H; reflexivity|].
  intros _. apply emits_bind;
    [eapply emits_weaken; [|apply accessibility_stage_emits]; intros [] H; try discriminate H; reflexivity|].
  intros _. apply emits_bind;
    [eapply emits_weaken; [|apply responsive_stage_emits]; intros [] H; try discriminate H; reflexivity|].
  intros _. apply emits_bind;
    [eapply emits_weaken; [|apply analyze_interactions_emits]; intros [] H; try discriminate H; reflexivity|].
  intros _. apply emits_log.
Qed.

(** A [try] block of [capture_frontend] that returns a context made
    every page-level call with success and read the viewport size. *)
Lemma capture_body_outcome {L} (url : string) (options : list (string * bool))
    (l : L) (w : W drv) :
  exists r w' evs,
    capture_body drv url options l w = mkOut r l w' evs /\
    (is_ok r = true ->
     (forall c, page_level c = true -> ~ failed c evs) /\
     (exists w3,
        is_ok (viewport_field (page_viewport_size drv w3) "width") = true /\
        is_ok (viewport_field (page_viewport_size drv w3) "height") = true)).
Proof.
  unfold capture_body.
  rewrite (exec_try_finally drv), (exec_try_except drv).
  peek_step. rewrite (exec_bind drv), (exec_call drv).
  destruct (drive drv (Goto url (Some 30000)) w) as [[[]|e] w1]; cbv beta iota;
    [|exec drv; do 3 eexists; (split; [reflexivity | cbn; intros H; discriminate H])].
  peek_step. rewrite (exec_bind drv), (exec_call drv).
  destruct (drive drv PageTitle w1) as [[title|e] w2]; cbv beta iota;
    [|exec drv; do 3 eexists; (split; [reflexivity | cbn; intros H; discriminate H])].
  peek_step. peek_step. peek_step.
  rewrite (exec_bind drv). unfold lift at 1. cbv beta iota.
  destruct (viewport_field (page_viewport_size drv w2) "width") as [width|e] eqn:Ew;
    [|exec drv; do 3 eexists; (split; [reflexivity | cbn; intros H; discriminate H])].
  rewrite (exec_bind drv). unfold lift at 1. cbv beta iota.
  destruct (viewport_field (page_viewport_size drv w2) "height") as [height|e] eqn:Eh;
    [|exec drv; do 3 eexists; (split; [reflexivity | cbn; intros H; discriminate H])].
  peek_step. rewrite (exec_bind drv), (exec_scope drv).
  match goal with
  | |- context [run_stages drv url options ?lt ?c0 ?w0] =>
      pose proof (run_stages_page_level url options lt c0 w0) as Hem;
      destruct (run_stages drv url options lt c0 w0) as [[[]|e] c6 w6 ev6]
  end; cbn [events] in Hem.
  - unfold ret. cbv beta iota delta [prepend]. rewrite (exec_call drv).
    destruct (drive drv PageClose w6) as [[[]|e] w7];
      do 3 eexists; (split; [reflexivity|]); cbn [is_ok];
      [|intros H; discriminate H].
    intros _. split.
    + intros c Hc Hf. unfold failed in Hf. cbn [app] in Hf.
      destruct Hf as [Hf|[Hf|Hf]]; try discriminate Hf.
      rewrite app_nil_r in Hf.
      apply in_app_or in Hf. destruct Hf as [Hf|[Hf|[]]]; [|discriminate Hf].
      rewrite Forall_forall in Hem. specialize (Hem _ Hf). cbn in Hem.
      rewrite Hc in Hem. discriminate Hem.
    + exists w2. rewrite Ew, Eh. split; reflexivity.
  - exec drv; do 3 eexists; (split; [reflexivity | cbn; intros H; discriminate H]).
Qed.

(** What a capture that returns a context went through. *)
Lemma capture_outcome {L} (self : FrontendCapture) (url : string)
    (options : option (list (string * bool))) (viewport : option (list (string * Z)))
    (l : L) (w : W drv) :
  exists r w' evs,
    capture_frontend drv self url options viewport l w = mkOut r l w' evs /\
    (is_ok r = true ->
     (forall c, page_level c = true -> ~ failed c evs) /\
     (truthy_dict viewport = true ->
      nth_error evs 1 =
      Some (ECall (SetViewportSize (match viewport with Some v => v | None => [] end))
                  true)) /\
     (exists w3,
        is_ok (viewport_field (page_viewport_size drv w3) "width") = true /\
        is_ok (viewport_field (page_viewport_size drv w3) "height") = true)).
Proof.
  unfold capture_frontend, new_page.
  destruct (context self);
    [|exec drv; do 3 eexists; (split; [reflexivity | cbn; intros H; discriminate H])].
  rewrite (exec_bind drv), (exec_call drv).
  destruct (drive drv NewPage w) as [[[]|e] w1]; cbv beta iota;
    [|do 3 eexists; (split; [reflexivity | cbn; intros H; discriminate H])].
  rewrite (exec_bind drv).
  destruct (truthy_dict viewport).
  - rewrite (exec_call drv).
    destruct (drive drv (SetViewportSize _) w1) as [[[]|e] w2]; cbv beta iota;
      [|do 3 eexists; (split; [reflexivity | cbn; intros H; discriminate H])].
    destruct (capture_body_outcome url
                (match options with None => default_options | Some o => o end) l w2)
      as (r & w3 & ev3 & Heq & Hbody).
    rewrite Heq. cbn [prepend app].
    do 3 eexists. split; [reflexivity|]. intros Hok.
    destruct (Hbody Hok) as (Hpage & Hvp).
    split; [|split; [intros _; reflexivity | exact Hvp]].
    intros c Hc [Hf|[Hf|Hf]]; try discriminate Hf. exact (Hpage c Hc Hf).
  - unfold ret at 1. cbv beta iota.
    destruct (capture_body_outcome url
                (match options with None => default_options | Some o => o end) l w1)
      as (r & w3 & ev3 & Heq & Hbody).
    rewrite Heq. cbn [prepend app].
    do 3 eexists. split; [reflexivity|]. intros Hok.
    destruct (Hbody Hok) as (Hpage & Hvp).
    split; [|split; [intros H; discriminate H | exact Hvp]].
    intros c Hc [Hf|Hf]; try discriminate Hf. exact (Hpage c Hc Hf).
Qed.

(** C2 (as amended): when the page-level calls succeed, [capture_frontend]
    returns a context whatever the analysis stages do; every enabled
    stage, and the interaction summary, is entered; and a stage whose
    driver call failed leaves its own fallback: the empty string for
    the screenshot, the declared defaults for the DOM collections and
    the markup, a metrics record holding only the load time for
    performance, no issues with score 0 for accessibility.  A failure
    of a page-level call is fatal: the capture returns no context when
    opening the page, the first navigation, reading the title or closing
    the page fails, when the sizing of the page to the requested
    viewport fails, or when the page reports no viewport size. *)
Theorem stage_failures_are_absorbed {L} (self : FrontendCapture) (url : string)
    (options : option (list (string * bool))) (viewport : option (list (string * Z)))
    (l : L) (w : W drv) :
  let o := capture_frontend drv self url options viewport l w in
  (context self = true ->
   page_calls_succeed drv url viewport ->
   exists ctx,
     res o = Ok ctx /\
     (enabled options "screenshot" true = true -> ran PageScreenshot (events o)) /\
     (enabled options "dom_analysis" true = true -> ran PageContentCall (events o)) /\
     (enabled options "performance" true = true -> ran EvalPerformance (events o)) /\
     (enabled options "accessibility" true = true -> ran EvalAccessibility (events o)) /\
     (enabled options "responsive" false = true ->
      ran (SetViewportSize [("width", 375); ("height", 667)]) (events o)) /\
     ran (QuerySelectorAll clickable_query) (events o) /\
     (failed PageScreenshot (events o) -> fc_screenshot ctx = Some EmptyString) /\
     (failed PageContentCall (events o) -> dom_defaults ctx) /\
     (failed EvalPerformance (events o) -> performance_fallback ctx) /\
     (failed EvalAccessibility (events o) -> fc_accessibility ctx = audit_fallback)) /\
  (forall c, page_level c = true -> failed c (events o) -> is_ok (res o) = false) /\
  (truthy_dict viewport = true ->
   nth_error (events o) 1 =
   Some (ECall (SetViewportSize (match viewport with Some v => v | None => [] end)) false) ->
   is_ok (res o) = false) /\
  ((forall w3,
      is_ok (viewport_field (page_viewport_size drv w3) "width") = false \/
      is_ok (viewport_field (page_viewport_size drv w3) "height") = false) ->
   is_ok (res o) = false).
Proof.
  intros o. subst o. split.
  { intros Hc Hpage.
    destruct (capture_run self url options viewport l w Hc Hpage)
      as (ctx0 & w0 & lt & pre & w' & Hd & Hpre & Heq).
    cbv zeta in Heq. rewrite Heq. cbn [res events].
    set (opts := match options with None => default_options | Some o => o end) in *.
    destruct (run_stages_runs_all url opts lt ctx0 w0) as (R1 & R2 & R3 & R4 & R5 & R6).
    destruct (run_stages_fallbacks url opts lt ctx0 w0 Hd) as (F1 & F2 & F3 & F4).
    exists (locals (run_stages drv url opts lt ctx0 w0)).
    split; [reflexivity|]. unfold enabled. fold opts.
    split; [intros En; apply ran_app_r, ran_app_l, R1, En|].
    split; [intros En; apply ran_app_r, ran_app_l, R2, En|].
    split; [intros En; apply ran_app_r, ran_app_l, R3, En|].
    split; [intros En; apply ran_app_r, ran_app_l, R4, En|].
    split; [intros En; apply ran_app_r, ran_app_l, R5, En|].
    split; [apply ran_app_r, ran_app_l, R6|].
    split; [intros H; apply F1; eapply failed_between; eassumption|].
    split; [intros H; apply F2; eapply failed_between; eassumption|].
    split; [intros H; apply F3; eapply failed_between; eassumption|].
    intros H; apply F4; eapply failed_between; eassumption. }
  destruct (capture_outcome self url options viewport l w)
    as (r & w' & evs & Heq & Hout).
  rewrite Heq. cbn [res events].
  destruct (is_ok r); [|repeat split; reflexivity].
  destruct (Hout eq_refl) as (Hpage & Hsize & (w3 & Hw & Hh)).
  split; [intros c Hc Hf; exfalso; exact (Hpage c Hc Hf)|].
  split.
  - intros Hv Hn. rewrite (Hsize Hv) in Hn. discriminate Hn.
  - intros Hno. destruct (Hno w3) as [H|H]; [rewrite Hw in H | rewrite Hh in H];
      discriminate H.
Qed.

End CaptureProofs.

(** Only the accessibility audit (and the interaction summary, which is
    not gated) runs. *)
Definition audit_only : list (string * bool) :=
  [ ("screenshot", false); ("dom_analysis", false); ("performance", false);
    ("accessibility", true); ("responsive", false) ].

Lemma audit_fails_page_calls_succeed :
  page_calls_succeed audit_fails "http://localhost:3000" None.
Proof.
  repeat split; intros; reflexivity || discriminate.
Qed.

(** C2 (as stated) fails: after a failed accessibility audit the
    context's accessibility field is not the declared default [{}]. *)
Lemma failed_audit_does_not_leave_default :
  ~ (forall (drv : Driver) (self : FrontendCapture) (url : string)
            (options : option (list (string * bool)))
            (viewport : option (list (string * Z))) (w : W drv) (ctx : FrontendContext),
       res (capture_frontend drv self url options viewport tt w) = Ok ctx ->
       failed EvalAccessibility
              (events (capture_frontend drv self url options viewport tt w)) ->
       fc_accessibility ctx = JDict []).
Proof.
  intro H.
  pose proof (H audit_fails session "http://localhost:3000" (Some audit_only) None 0%nat)
    as H'.
  destruct (res (capture_frontend audit_fails session "http://localhost:3000"
                   (Some audit_only) None tt 0%nat)) as [ctx|e] eqn:E.
  - assert (Hf : failed EvalAccessibility
                   (events (capture_frontend audit_fails session "http://localhost:3000"
                              (Some audit_only) None tt 0%nat))).
    { vm_compute. repeat (first [left; reflexivity | right]). }
    specialize (H' ctx eq_refl Hf).
    vm_compute in E. injection E as E. subst ctx. discriminate H'.
  - vm_compute in E. discriminate E.
Qed.

(** A capture whose accessibility audit fails: it returns, with the
    audit's fallback in the context.  A capture of an unreachable site:
    it returns no context. *)
Lemma stage_failures_are_absorbed_witness :
  (exists ctx,
     res (capture_frontend audit_fails session "http://localhost:3000"
            (Some audit_only) None tt 0%nat) = Ok ctx /\
     fc_accessibility ctx = audit_fallback) /\
  is_ok (res (capture_frontend unreachable_site session "http://localhost:3000"
                None None tt 0%nat)) = false.
Proof.
  split.
  - pose proof (stage_failures_are_absorbed audit_fails session "http://localhost:3000"
                  (Some audit_only) None tt 0%nat) as [Habsorbed _].
    destruct (Habsorbed eq_refl audit_fails_page_calls_succeed)
      as (ctx & Hres & _ & _ & _ & _ & _ & _ & _ & _ & _ & Hfallback).
    exists ctx. split; [exact Hres|].
    apply Hfallback. vm_compute. repeat (first [left; reflexivity | right]).
  - pose proof (stage_failures_are_absorbed unreachable_site session
                  "http://localhost:3000" None None tt 0%nat) as (_ & Hfatal & _).
    apply (Hfatal (Goto "http://localhost:3000" (Some 30000)) eq_refl).
    vm_compute. repeat (first [left; reflexivity | right]).
Defined.

(* ================================================================= *)
(** ** The other action types of interact_with_page *)



Section ActionProofs.

Context (drv : Driver).







End ActionProofs.

Section ActionResults.

Context (drv : Driver) (L : Type).

Variables (self : FrontendCapture) (url : string) (actions : list InteractionAction)
          (l : L) (w : W drv) (results : list InteractionResult).







End ActionResults.

Definition scroll_by (x y : Z) : InteractionAction :=
  mkInteractionAction "scroll" None None (Some [("x", x); ("y", y)]) None None.








(* ================================================================= *)
(** ** Page lifetime and navigation failure *)

(** An interaction session on an unreachable site still closes its page. *)
Lemma interact_closes_page_witness :
  exists ok,
    In (ECall PageClose ok)
       (events (interact_with_page unreachable_site session "http://localhost:3000"
                  [wait_for 1000] tt 0%nat)).
Proof.
  apply (interact_closes_page unreachable_site session "http://localhost:3000"
           [wait_for 1000] tt 0%nat).
  vm_compute. left. reflexivity.
Defined.

(** A capture of an unreachable site still closes its page. *)
Lemma capture_closes_page_after_viewport_witness :
  exists ok,
    In (ECall PageClose ok)
       (events (capture_frontend unreachable_site session "http://localhost:3000"
                  None (Some [("width", 1280); ("height", 720)]) tt 0%nat)).
Proof.
  apply (capture_closes_page_after_viewport unreachable_site session
           "http://localhost:3000" None (Some [("width", 1280); ("height", 720)]) tt 0%nat).
  - reflexivity.
  - reflexivity.
  - intros _. reflexivity.
Defined.

Section NavigationFailure.

Context (drv : Driver).

Lemma capture_navigation_failure_run {L} (self : FrontendCapture) (url : string)
    (options : option (list (string * bool))) (viewport : option (list (string * Z)))
    (l : L) (w w1 w2 w3 : W drv) (e : Exc) :
  context self = true ->
  drive drv NewPage w = (Ok tt, w1) ->
  (if truthy_dict viewport
   then drive drv (SetViewportSize (match viewport with Some v => v | None => [] end)) w1
        = (Ok tt, w2)
   else w2 = w1) ->
  drive drv (Goto url (Some 30000)) w2 = (Raise e, w3) ->
  exists r,
    capture_frontend drv self url options viewport l w =
    mkOut r l (snd (drive drv PageClose w3))
      ([ECall NewPage true] ++
       (if truthy_dict viewport
        then [ECall (SetViewportSize (match viewport with Some v => v | None => [] end)) true]
        else []) ++
       [ECall (Goto url (Some 30000)) false;
        ELog ERROR ("Error capturing frontend context: " ++ exc_str e);
        ECall PageClose (is_ok (fst (drive drv PageClose w3)))])%list /\
    (is_ok (fst (drive drv PageClose w3)) = true -> r = Raise e).
Proof.
  intros Hc Hnew Hv Hgoto.
  unfold capture_frontend, capture_body, new_page. rewrite Hc.
  rewrite (exec_bind drv), (exec_call drv), Hnew. cbv beta iota.
  rewrite (exec_bind drv).
  destruct (truthy_dict viewport).
  - rewrite (exec_call drv), Hv. cbv beta iota.
    rewrite (exec_try_finally drv), (exec_try_except drv).
    rewrite (exec_bind drv). unfold peek at 1. cbv beta iota.
    rewrite (exec_bind drv), (exec_call drv), Hgoto. cbv beta iota delta [prepend].
    rewrite (exec_bind drv). unfold log at 1, raise at 1. cbv beta iota delta [prepend].
    rewrite (exec_call drv).
    destruct (drive drv PageClose w3) as [[[]|e'] w4]; cbn;
      eexists; (split; [reflexivity | intros H; first [reflexivity | discriminate H]]).
  - subst w2. unfold ret at 1. cbv beta iota.
    rewrite (exec_try_finally drv), (exec_try_except drv).
    rewrite (exec_bind drv). unfold peek at 1. cbv beta iota.
    rewrite (exec_bind drv), (exec_call drv), Hgoto. cbv beta iota delta [prepend].
    rewrite (exec_bind drv). unfold log at 1, raise at 1. cbv beta iota delta [prepend].
    rewrite (exec_call drv).
    destruct (drive drv PageClose w3) as [[[]|e'] w4]; cbn;
      eexists; (split; [reflexivity | intros H; first [reflexivity | discriminate H]]).
Qed.

(** X: when the navigation of a capture raises, no stage runs: the
    error is logged, the page is closed, and -- when closing returns --
    the navigation's exception is what [capture_frontend] raises. *)
Theorem capture_navigation_failure_is_fatal {L} (self : FrontendCapture) (url : string)
    (options : option (list (string * bool))) (viewport : option (list (string * Z)))
    (l : L) (w w1 w2 w3 : W drv) (e : Exc) :
  context self = true ->
  drive drv NewPage w = (Ok tt, w1) ->
  (if truthy_dict viewport
   then drive drv (SetViewportSize (match viewport with Some v => v | None => [] end)) w1
        = (Ok tt, w2)
   else w2 = w1) ->
  drive drv (Goto url (Some 30000)) w2 = (Raise e, w3) ->
  let o := capture_frontend drv self url options viewport l w in
  events o =
    ([ECall NewPage true] ++
     (if truthy_dict viewport
      then [ECall (SetViewportSize (match viewport with Some v => v | None => [] end)) true]
      else []) ++
     [ECall (Goto url (Some 30000)) false;
      ELog ERROR ("Error capturing frontend context: " ++ exc_str e);
      ECall PageClose (is_ok (fst (drive drv PageClose w3)))])%list /\
  (is_ok (fst (drive drv PageClose w3)) = true -> res o = Raise e).
Proof.
  intros Hc Hnew Hv Hgoto o. subst o.
  destruct (capture_navigation_failure_run self url options viewport l w w1 w2 w3 e
              Hc Hnew Hv Hgoto) as (r & Heq & Hr).
  rewrite Heq. split; [reflexivity | exact Hr].
Qed.

End NavigationFailure.

Lemma capture_navigation_failure_is_fatal_witness :
  res (capture_frontend unreachable_site session "http://localhost:3000" None None tt 0%nat)
  = Raise (DriverError "browser error").
Proof.
  apply (capture_navigation_failure_is_fatal unreachable_site session
           "http://localhost:3000" None None tt 0%nat 1%nat 1%nat 2%nat
           (DriverError "browser error") eq_refl eq_refl eq_refl eq_refl).
  reflexivity.
Defined.

(* ================================================================= *)
(** ** What the analysis stages do to the page *)

(** The calls that read the page, and the resizing of the responsive
    sweep. *)
Definition analysis_calls (c : Call) : bool :=
  match c with
  | PageScreenshot | PageContentCall | QuerySelectorAll _ | ElemTextContent _
  | ElemIsVisible _ | ElemGetAttribute _ _ | EvalPerformance | EvalAccessibility
  | EvalOverflow | EvalScrollHeight | EvalClientHeight => true
  | SetViewportSize _ | WaitForTimeout _ => true
  | _ => false
  end.

Section StageFootprint.

Context (drv : Driver).

(** X: the stages of a capture only read the page, resize it and wait:
    they never open or close a page, navigate, click, fill, turn the
    wheel or press a key. *)
Theorem stages_only_read_and_resize url options lt (c0 : FrontendContext) (w0 : W drv)
    (c : Call) (ok : bool) :
  In (ECall c ok) (events (run_stages drv url options lt c0 w0)) ->
  analysis_calls c = true.
Proof.
  assert (He : emits drv analysis_calls (run_stages drv url options lt)).
  { unfold run_stages.
    apply emits_bind;
      [eapply emits_weaken; [|apply screenshot_stage_emits]; intros [] H; try discriminate H; reflexivity|].
    intros _. apply emits_bind;
      [eapply emits_weaken; [|apply dom_stage_emits]; intros [] H; try discriminate H; reflexivity|].
    intros _. apply emits_bind;
      [eapply emits_weaken; [|apply performance_stage_emits]; intros [] H; try discriminate H; reflexivity|].
    intros _. apply emits_bind;
      [eapply emits_weaken; [|apply accessibility_stage_emits]; intros [] H; try discriminate H; reflexivity|].
    intros _. apply emits_bind;
      [eapply emits_weaken; [|apply responsive_stage_emits]; intros [] H; try discriminate H; reflexivity|].
    intros _. apply emits_bind;
      [eapply emits_weaken; [|apply analyze_interactions_emits]; intros [] H; try discriminate H; reflexivity|].
    intros _. apply emits_log. }
  intros Hin. specialize (He c0 w0). rewrite Forall_forall in He.
  exact (He _ Hin).
Qed.

End StageFootprint.

Lemma stages_only_read_and_resize_witness :
  analysis_calls PageScreenshot = true.
Proof.
  apply (stages_only_read_and_resize healthy "http://localhost:3000" default_options 0
           (new_context 0 "http://localhost:3000" "Example Domain"
              [("width", 1280); ("height", 720)] [])
           0%nat PageScreenshot true).
  vm_compute. left. reflexivity.
Defined.

(* ================================================================= *)
(** ** The options of a capture *)

Definition resolve_options (options : option (list (string * bool)))
    : list (string * bool) :=
  match options with None => default_options | Some o => o end.

(** Two option dicts give the same answer for the five flags that
    [capture_frontend] reads, each with the default it is read with. *)
Definition flags_agree (o1 o2 : list (string * bool)) : Prop :=
  dict_get_default o1 "screenshot" true = dict_get_default o2 "screenshot" true /\
  dict_get_default o1 "dom_analysis" true = dict_get_default o2 "dom_analysis" true /\
  dict_get_default o1 "performance" true = dict_get_default o2 "performance" true /\
  dict_get_default o1 "accessibility" true = dict_get_default o2 "accessibility" true /\
  dict_get_default o1 "responsive" false = dict_get_default o2 "responsive" false.

Section OptionProofs.

Context (drv : Driver).

(** X: a capture depends on its options only through the five stage
    flags, read with their defaults; in particular the [console_logs]
    entry is never read, and a key left out means the same as in the
    default options. *)
Theorem capture_reads_only_stage_flags {L} (self : FrontendCapture) (url : string)
    (options1 options2 : option (list (string * bool)))
    (viewport : option (list (string * Z))) :
  flags_agree (resolve_options options1) (resolve_options options2) ->
  @capture_frontend drv L self url options1 viewport =
  @capture_frontend drv L self url options2 viewport.
Proof.
  intros (H1 & H2 & H3 & H4 & H5).
  unfold capture_frontend, capture_body, run_stages, screenshot_stage, dom_stage,
    performance_stage, accessibility_stage, responsive_stage.
  fold (resolve_options options1). fold (resolve_options options2).
  rewrite H1, H2, H3, H4, H5. reflexivity.
Qed.

End OptionProofs.

(** Switching [console_logs] off, and leaving every other key out,
    changes nothing. *)
Lemma capture_reads_only_stage_flags_witness :
  @capture_frontend healthy unit session "http://localhost:3000"
    (Some [("console_logs", false)]) None =
  @capture_frontend healthy unit session "http://localhost:3000" None None.
Proof.
  apply (capture_reads_only_stage_flags healthy session "http://localhost:3000"
           (Some [("console_logs", false)]) None None).
  repeat split.
Defined.

(* ================================================================= *)
(** ** The accessibility rules *)

(** No heading is more than one level below the heading before it;
    [last] is the level before the first heading. *)
Inductive no_level_skipped : nat -> list nat -> Prop :=
| no_skip_nil last : no_level_skipped last []
| no_skip_cons last level rest :
    (level <= last + 1)%nat ->
    no_level_skipped level rest ->
    no_level_skipped last (level :: rest).

Lemma for_each_indexed_length {A} (f : nat -> A -> Res (list Json)) :
  (forall i x out, f i x = Ok out -> (List.length out <= 1)%nat) ->
  forall xs i out,
    for_each_indexed f i xs = Ok out -> (List.length out <= List.length xs)%nat.
Proof.
  intros Hf. induction xs as [|x xs IH]; intros i out H; cbn in H.
  - inversion H; subst. apply Nat.le_refl.
  - unfold res_bind in H.
    destruct (f i x) as [here|e] eqn:Ef; [|discriminate H].
    destruct (for_each_indexed f (S i) xs) as [later|e] eqn:El; [|discriminate H].
    inversion H; subst. rewrite length_app. cbn.
    specialize (Hf _ _ _ Ef). specialize (IH _ _ El). lia.
Qed.

Lemma image_rule_length i img out :
  image_rule i img = Ok out -> (List.length out <= 1)%nat.
Proof.
  unfold image_rule. destruct (_ && _); intros H; inversion H; subst; cbn; lia.
Qed.

Lemma input_rule_length i input out :
  input_rule i input = Ok out -> (List.length out <= 1)%nat.
Proof.
  unfold input_rule, res_bind.
  destruct (if String.eqb (ctl_id input) EmptyString then _ else _) as [b|e];
    [|discriminate].
  destruct (_ && _); intros H; inversion H; subst; cbn; lia.
Qed.

Lemma heading_rule_length last hs :
  (List.length (heading_rule last hs) <= List.length hs)%nat.
Proof.
  revert last. induction hs as [|level rest IH]; intros last; [apply Nat.le_refl|].
  cbn [heading_rule List.length]. rewrite length_app. specialize (IH level).
  destruct (last + 1 <? level)%nat; cbn [List.length]; lia.
Qed.

(** X: the score of an audit that ran is a multiple of ten between 0
    and 100; it is 100 exactly when there is no issue and 0 exactly when
    there are ten or more; and there are no more issues than images,
    form controls and headings together. *)
Theorem audit_score_range (doc : A11yDoc) (j : Json) :
  a11y_script doc = Ok j ->
  exists issues score,
    j = JDict [("issues", JList issues); ("score", JInt score)] /\
    0 <= score <= 100 /\ score mod 10 = 0 /\
    (score = 100 <-> issues = []) /\
    (score = 0 <-> (10 <= List.length issues)%nat) /\
    (List.length issues <=
     List.length (doc_images doc) + List.length (doc_inputs doc) +
     List.length (doc_headings doc))%nat.
Proof.
  unfold a11y_script, res_bind.
  destruct (for_each_indexed image_rule 0 (doc_images doc)) as [i1|e] eqn:E1;
    [|discriminate].
  destruct (for_each_indexed input_rule 0 (doc_inputs doc)) as [i2|e] eqn:E2;
    [|discriminate].
  intros H. inversion H; subst. clear H.
  eexists. eexists. split; [reflexivity|].
  pose proof (for_each_indexed_length image_rule image_rule_length _ _ _ E1) as L1.
  pose proof (for_each_indexed_length input_rule input_rule_length _ _ _ E2) as L2.
  pose proof (heading_rule_length 0 (doc_headings doc)) as L3.
  set (issues := (i1 ++ i2 ++ heading_rule 0 (doc_headings doc))%list).
  assert (Hlen : List.length issues =
                 (List.length i1 + List.length i2 +
                  List.length (heading_rule 0 (doc_headings doc)))%nat).
  { unfold issues. rewrite !length_app. lia. }
  unfold a11y_score.
  split; [lia|].
  split.
  { destruct (Z.max_spec 0 (100 - Z.of_nat (List.length issues) * 10)) as [[_ ->]|[_ ->]];
      [|reflexivity].
    replace (100 - Z.of_nat (List.length issues) * 10)
      with ((10 - Z.of_nat (List.length issues)) * 10) by lia.
    apply Z.mod_mul. lia. }
  split.
  { split.
    - intros Hs. destruct issues; [reflexivity|]. cbn [List.length] in Hs. lia.
    - intros ->. reflexivity. }
  split; [lia | lia].
Qed.

Lemma audit_score_range_witness :
  exists issues score,
    a11y_script sample_a11y_doc = Ok (JDict [("issues", JList issues); ("score", JInt score)])
    /\ score = 70.
Proof.
  destruct (audit_score_range sample_a11y_doc
              (match a11y_script sample_a11y_doc with Ok j => j | Raise _ => JNull end)
              eq_refl) as (issues & score & Hj & _).
  vm_compute in Hj. injection Hj as Hi Hs.
  exists issues, score. subst. split; reflexivity.
Defined.

(** X: the heading rule reports nothing exactly when no heading is more
    than one level below the heading before it, the first heading being
    measured against level 0: a first heading other than [h1] is
    reported. *)
Theorem heading_rule_silent_iff_no_skip (last : nat) (headings : list nat) :
  heading_rule last headings = [] <-> no_level_skipped last headings.
Proof.
  revert last. induction headings as [|level rest IH]; intros last;
    cbn [heading_rule].
  - split; [constructor | reflexivity].
  - destruct (last + 1 <? level)%nat eqn:E.
    + split; [cbn [app]; intros H; discriminate H|].
      intros H. inversion H; subst. apply Nat.ltb_lt in E. lia.
    + cbn [app]. rewrite IH. split.
      * intros H. constructor; [apply Nat.ltb_ge in E; exact E | exact H].
      * intros H. inversion H; subst. assumption.
Qed.

Example first_heading_h2_is_reported :
  List.length (heading_rule 0 [2; 3; 3; 1; 2]%nat) = 1%nat /\
  heading_rule 0 [1; 2; 3; 2; 3]%nat = [].
Proof. split; reflexivity. Qed.

(* ================================================================= *)
(** ** The scan of _extract_dom_elements *)

(** The records of the nodes of one tag that can be built, in document
    order. *)
Definition built_elements (tag_name : string) (nodes : list Node) : list DOMElement :=
  flat_map (fun n => match dom_element_of tag_name n with
                     | Ok e => [e]
                     | Raise _ => []
                     end) nodes.

(** All of them, tag after tag in the order of the tag list. *)
Definition scan_order (soup : Node) (tags : list string) : list DOMElement :=
  flat_map (fun tag_name => built_elements tag_name (find_all soup [tag_name])) tags.

Section ScanProofs.

Context (drv : Driver).

(** The inner [try] of [_extract_dom_elements]; answers [true] on
    [break].  The local is [elements]. *)
Definition scan_node (tag_name : string) (element : Node)
    : M drv (list DOMElement) bool :=
  try_except drv
    (bind drv (lift drv (dom_element_of tag_name element)) (fun elem =>
     bind drv (modify drv (fun elements => (elements ++ [elem])%list)) (fun _ =>
     bind drv (get drv) (fun elements =>
     ret drv (100 <=? List.length elements)%nat))))
    (fun e =>
       bind drv (log drv DEBUG
                   ("Error processing element " ++ tag_name ++ ": " ++ exc_str e))
         (fun _ => ret drv false)).

Lemma scan_node_eq tag_name element (els : list DOMElement) (w : W drv) :
  scan_node tag_name element els w =
  match dom_element_of tag_name element with
  | Ok e => mkOut (Ok (100 <=? List.length (els ++ [e]))%nat) (els ++ [e])%list w []
  | Raise ex =>
      mkOut (Ok false) els w
        [ELog DEBUG ("Error processing element " ++ tag_name ++ ": " ++ exc_str ex)]
  end.
Proof.
  unfold scan_node.
  rewrite (exec_try_except drv), (exec_bind drv). unfold lift at 1. cbv beta iota.
  destruct (dom_element_of tag_name element) as [e|ex].
  - exec drv. reflexivity.
  - exec drv. reflexivity.
Qed.

(** One tag: successes are appended in order; the scan of the tag stops
    early only when the list has reached 100. *)
Lemma scan_tag tag_name (nodes : list Node) :
  forall (els : list DOMElement) (w : W drv),
    let o := for_each_break drv nodes (scan_node tag_name) els w in
    res o = Ok tt /\
    exists k,
      locals o = (els ++ firstn k (built_elements tag_name nodes))%list /\
      ((List.length (locals o) < 100)%nat ->
       locals o = (els ++ built_elements tag_name nodes)%list).
Proof.
  induction nodes as [|n rest IH]; intros els w o; subst o.
  - cbn. split; [reflexivity|]. exists 0%nat. cbn. rewrite app_nil_r. split; [reflexivity | intros _; reflexivity].
  - cbn [for_each_break]. rewrite (exec_bind drv), scan_node_eq.
    unfold built_elements. cbn [flat_map]. fold (built_elements tag_name rest).
    destruct (dom_element_of tag_name n) as [e|ex].
    + cbv beta iota delta [prepend].
      destruct (100 <=? List.length (els ++ [e]))%nat eqn:Hfull.
      * unfold ret. cbn [res locals].
        split; [reflexivity|]. exists 1%nat. cbn [app firstn].
        split; [reflexivity|].
        intros Hlt. apply Nat.leb_le in Hfull. lia.
      * destruct (IH (els ++ [e])%list w) as (Hres & k & Hl & Hall).
        destruct (for_each_break drv rest (scan_node tag_name) (els ++ [e])%list w)
          as [r1 l1 w1 ev1].
        cbn [res locals] in *. split; [exact Hres|].
        exists (S k). split.
        -- rewrite Hl, <- app_assoc. reflexivity.
        -- intros Hlt. rewrite (Hall Hlt), <- app_assoc. reflexivity.
    + cbv beta iota delta [prepend]. cbn [app].
      destruct (IH els w) as (Hres & k & Hl & Hall).
      destruct (for_each_break drv rest (scan_node tag_name) els w) as [r1 l1 w1 ev1].
      cbn [res locals] in *. split; [exact Hres|].
      exists k. split; [exact Hl | exact Hall].
Qed.

Lemma firstn_app_left {A} (n : nat) (l1 l2 : list A) :
  (n <= List.length l1)%nat -> firstn n (l1 ++ l2) = firstn n l1.
Proof.
  intros H. rewrite firstn_app.
  replace (n - List.length l1)%nat with 0%nat by lia.
  cbn. apply app_nil_r.
Qed.

(** The list and the scan order agree on their first hundred. *)
Definition scanned (all : list DOMElement) (els : list DOMElement) : Prop :=
  (els = all /\ (List.length els < 100)%nat) \/
  ((100 <= List.length els)%nat /\ firstn 100 els = firstn 100 all).

Lemma scanned_length all els :
  scanned all els -> (100 <= List.length els)%nat -> (100 <= List.length all)%nat.
Proof.
  intros [[-> Hlt]|[_ Hf]] Hge; [lia|].
  assert (Hl : List.length (firstn 100 els) = List.length (firstn 100 all))
    by (rewrite Hf; reflexivity).
  rewrite !length_firstn in Hl. lia.
Qed.

Lemma scan_tags soup (tags : list string) :
  forall (done : list DOMElement) (els : list DOMElement) (w : W drv),
    scanned done els ->
    let o := for_each drv tags
               (fun tag_name =>
                  for_each_break drv (find_all soup [tag_name]) (scan_node tag_name))
               els w in
    res o = Ok tt /\ scanned (done ++ scan_order soup tags) (locals o).
Proof.
  induction tags as [|t rest IH]; intros done els w Hs o; subst o.
  - cbn. rewrite app_nil_r. split; [reflexivity | exact Hs].
  - cbn [for_each]. rewrite (exec_bind drv).
    destruct (scan_tag t (find_all soup [t]) els w) as (Hres & k & Hl & Hall).
    destruct (for_each_break drv (find_all soup [t]) (scan_node t) els w)
      as [[[]|ex] l1 w1 ev1]; cbn [res locals] in *; [|discriminate Hres].
    cbv beta iota delta [prepend].
    set (Bs := built_elements t (find_all soup [t])) in *.
    assert (Hs1 : scanned (done ++ Bs) l1).
    { destruct (Nat.ltb (List.length l1) 100) eqn:Hlt.
      - apply Nat.ltb_lt in Hlt. left. split; [|exact Hlt].
        rewrite (Hall Hlt).
        destruct Hs as [[-> _]|[Hge _]]; [reflexivity|].
        rewrite (Hall Hlt), length_app in Hlt. lia.
      - apply Nat.ltb_ge in Hlt. right. split; [exact Hlt|].
        destruct Hs as [[-> Hl0]|[Hge Hf]].
        + rewrite Hl.
          rewrite <- (firstn_skipn k Bs) at 2. rewrite app_assoc.
          rewrite (firstn_app_left 100 (done ++ firstn k Bs) (skipn k Bs));
            [reflexivity|]. rewrite <- Hl. exact Hlt.
        + rewrite Hl.
          pose proof (scanned_length done els (or_intror (conj Hge Hf)) Hge) as Hd.
          rewrite !firstn_app_left by assumption. exact Hf. }
    destruct (IH (done ++ Bs)%list l1 w1 Hs1) as (Hres2 & Hs2).
    destruct (for_each drv rest _ l1 w1) as [r2 l2 w2 ev2].
    cbn [res locals] in *. split; [exact Hres2|].
    cbn [scan_order flat_map]. fold (scan_order soup rest). fold Bs.
    rewrite app_assoc. exact Hs2.
Qed.

Lemma dom_elements_run {L} (soup : Node) (l : L) (w : W drv) :
  res (_extract_dom_elements drv soup l w) = Ok (firstn 100 (scan_order soup important_tags)).
Proof.
  unfold _extract_dom_elements.
  rewrite (exec_bind drv), (exec_scope drv), (exec_try_except drv).
  change (for_each drv important_tags _ [] w)
    with (for_each drv important_tags
            (fun tag_name =>
               for_each_break drv (find_all soup [tag_name]) (scan_node tag_name)) [] w).
  destruct (scan_tags soup important_tags [] [] w) as (Hres & Hs).
  { left. split; [reflexivity | cbn; lia]. }
  cbn [app] in Hs.
  destruct (for_each drv important_tags _ [] w) as [[[]|ex] l1 w1 ev1];
    cbn [res locals] in *; [|discriminate Hres].
  unfold ret. cbv beta iota delta [prepend]. cbn [res snd]. f_equal.
  destruct Hs as [[-> _]|[_ Hf]]; [reflexivity | exact Hf].
Qed.


End ScanProofs.

(* ================================================================= *)
(** ** The extractors of buttons, links and inputs *)

(** The records of an initial part of [xs]: up to the first element
    whose record cannot be built. *)
Fixpoint built_until_failure {A B} (f : A -> Res B) (xs : list A) : list B :=
  match xs with
  | [] => []
  | x :: xs' =>
      match f x with
      | Ok y => y :: built_until_failure f xs'
      | Raise _ => []
      end
  end.

Section ExtractorProofs.

Context (drv : Driver).

Lemma collect_loop {A B} (f : A -> Res B) (xs : list A) :
  forall (acc : list B) (w : W drv),
    locals (for_each drv xs
              (fun x => bind drv (lift drv (f x))
                          (fun y => modify drv (fun acc => (acc ++ [y])%list)))
              acc w)
    = (acc ++ built_until_failure f xs)%list.
Proof.
  induction xs as [|x rest IH]; intros acc w.
  - cbn. rewrite app_nil_r. reflexivity.
  - cbn [for_each built_until_failure]. rewrite (exec_bind drv), (exec_bind drv).
    unfold lift at 1. cbv beta iota.
    destruct (f x) as [y|e].
    + unfold modify at 1. cbv beta iota. cbn [prepend app].
      rewrite locals_prepend, IH, <- app_assoc. reflexivity.
    + cbn. rewrite app_nil_r. reflexivity.
Qed.

Lemma collect_filtered_loop {A B} (keep : A -> bool) (f : A -> Res B) (xs : list A) :
  forall (acc : list B) (w : W drv),
    locals (for_each drv xs
              (fun x => if keep x
                        then bind drv (lift drv (f x))
                               (fun y => modify drv (fun acc => (acc ++ [y])%list))
                        else ret drv tt)
              acc w)
    = (acc ++ built_until_failure f (filter keep xs))%list.
Proof.
  induction xs as [|x rest IH]; intros acc w.
  - cbn. rewrite app_nil_r. reflexivity.
  - cbn [for_each filter]. rewrite (exec_bind drv).
    destruct (keep x).
    + cbn [built_until_failure]. rewrite (exec_bind drv).
      unfold lift at 1. cbv beta iota.
      destruct (f x) as [y|e].
      * unfold modify at 1. cbv beta iota. cbn [prepend app].
        rewrite locals_prepend, IH, <- app_assoc. reflexivity.
      * cbn. rewrite app_nil_r. reflexivity.
    + unfold ret at 1. cbv beta iota. cbn [prepend app].
      rewrite locals_prepend. apply IH.
Qed.

(** A collecting loop inside [try]/[except] with a handler that only
    logs, run as a callee: what it hands back. *)
Lemma collected {L B} (loop : M drv (list B) unit) (msg : Exc -> string)
    (cap : list B -> list B) (l : L) (w : W drv) :
  res (bind drv (scope drv (@nil B)
                   (try_except drv loop (fun e => log drv ERROR (msg e))))
         (fun r => ret drv (cap (snd r))) l w)
  = Ok (cap (locals (loop [] w))).
Proof.
  rewrite (exec_bind drv), (exec_scope drv), (exec_try_except drv).
  destruct (loop [] w) as [[[]|e] l1 w1 ev1]; exec drv; reflexivity.
Qed.

(** X: [_extract_buttons] returns the records of the first twenty
    button controls of the document, in document order: the [button]
    tags and the [input] tags of type [button] or [submit]; an [input]
    of another type, or without a type, is never among them.  A control
    whose record cannot be built ends the list: the controls before it
    are kept, it and the ones after it are left out. *)
Theorem buttons_are_first_twenty_button_controls {L} (soup : Node) (l : L) (w : W drv) :
  res (_extract_buttons drv soup l w) =
  Ok (firstn 20 (built_until_failure button_element_of
                   (filter is_button_control (find_all soup ["button"; "input"])))).
Proof.
  unfold _extract_buttons.
  rewrite (collected _ (fun e => "Error extracting buttons: " ++ exc_str e) (firstn 20)).
  rewrite collect_filtered_loop. reflexivity.
Qed.

(** X: [_extract_links] returns the records of the first thirty [a]
    tags that have an [href] attribute, in document order; an [a] tag
    without [href] is never among them.  A link whose record cannot be
    built ends the list. *)
Theorem links_are_first_thirty_anchors_with_href {L} (soup : Node) (l : L) (w : W drv) :
  res (_extract_links drv soup l w) =
  Ok (firstn 30 (built_until_failure link_element_of (find_all_href soup "a"))).
Proof.
  unfold _extract_links.
  rewrite (collected _ (fun e => "Error extracting links: " ++ exc_str e) (firstn 30)).
  rewrite collect_loop. reflexivity.
Qed.

(** X: [_extract_inputs] returns the records of the [input], [textarea]
    and [select] tags of the document, in document order and without a
    cap.  A control whose record cannot be built ends the list. *)
Theorem inputs_are_all_form_controls {L} (soup : Node) (l : L) (w : W drv) :
  res (_extract_inputs drv soup l w) =
  Ok (built_until_failure input_element_of (find_all soup ["input"; "textarea"; "select"])).
Proof.
  unfold _extract_inputs.
  rewrite (collected _ (fun e => "Error extracting inputs: " ++ exc_str e) (fun x => x)).
  rewrite collect_loop. reflexivity.
Qed.

End ExtractorProofs.

(* ================================================================= *)
(** ** The performance probe *)

Section PerformanceProofs.

Context (drv : Driver).

(** X: [_analyze_performance] never raises and leaves its caller's
    variables alone.  The record it returns always carries the load
    time it was given, never a largest contentful paint, an error or a
    warning; the two paint timings are those the page reported, and
    both are missing when the probe failed. *)
Theorem performance_probe_never_raises {L} (load_time : Z) (l : L) (w : W drv) :
  let o := _analyze_performance drv load_time l w in
  exists pm,
    res o = Ok pm /\ locals o = l /\
    pm_load_time pm = load_time /\
    pm_largest_contentful_paint pm = None /\
    pm_errors pm = [] /\ pm_warnings pm = [] /\
    match fst (drive drv EvalPerformance w) with
    | Ok performance_data =>
        pm_first_contentful_paint pm = firstContentfulPaint performance_data /\
        pm_dom_content_loaded pm = domContentLoaded performance_data
    | Raise _ =>
        pm_first_contentful_paint pm = None /\ pm_dom_content_loaded pm = None
    end.
Proof.
  intros o. subst o. unfold _analyze_performance.
  rewrite (exec_try_except drv), (exec_bind drv), (exec_call drv).
  destruct (drive drv EvalPerformance w) as [[performance_data|e] w1];
    exec drv; cbn [res locals fst]; eexists; repeat split.
Qed.

End PerformanceProofs.

(* ================================================================= *)
(** ** The responsive sweep *)






Section ResponsiveProofs.

Context (drv : Driver).






End ResponsiveProofs.


(* ================================================================= *)
(** ** The interaction summary *)

Section SummaryProofs.

Context (drv : Driver).

(** The [try] inside the loop over the navigation links. *)
Definition note_link (link : Handle) : M drv Interactions unit :=
  try_except drv
    (bind drv (call drv (ElemGetAttribute link "href")) (fun href =>
     bind drv (call drv (ElemTextContent link)) (fun text =>
     if truthy_str href && truthy_str text then
       modify drv (fun i => mkInteractions (clickable_count i) (focusable_count i)
                 (form_count i)
                 (navigation_links i ++
                  [JDict [("text", JStr (py_strip (opt_str text)));
                          ("href", JStr (opt_str href))]])%list
                 (can_scroll i))
     else ret drv tt)))
    (fun _ => ret drv tt).

(** The loop only appends to the navigation links, at most one entry
    for each link. *)
Lemma note_links_loop (links : list Handle) :
  forall (i : Interactions) (w : W drv),
    let o := for_each drv links note_link i w in
    res o = Ok tt /\
    exists added,
      (List.length added <= List.length links)%nat /\
      locals o = mkInteractions (clickable_count i) (focusable_count i) (form_count i)
                   (navigation_links i ++ added)%list (can_scroll i).
Proof.
  induction links as [|link rest IH]; intros i w o; subst o.
  - cbn. split; [reflexivity|]. exists []. rewrite app_nil_r. destruct i.
    split; [apply Nat.le_refl | reflexivity].
  - cbn [for_each]. rewrite (exec_bind drv).
    assert (Hstep : res (note_link link i w) = Ok tt /\
                    exists one, (List.length one <= 1)%nat /\
                      locals (note_link link i w) =
                      mkInteractions (clickable_count i) (focusable_count i) (form_count i)
                        (navigation_links i ++ one)%list (can_scroll i)).
    { unfold note_link. exec drv; cbn [res locals].
      - destruct (truthy_str a && truthy_str a0); cbn [res locals];
          (split; [reflexivity|]).
        + eexists [_]. split; [apply Nat.le_refl | reflexivity].
        + exists []. rewrite app_nil_r. destruct i. split; [apply Nat.le_0_l | reflexivity].
      - split; [reflexivity|]. exists []. rewrite app_nil_r. destruct i.
        split; [apply Nat.le_0_l | reflexivity].
      - split; [reflexivity|]. exists []. rewrite app_nil_r. destruct i.
        split; [apply Nat.le_0_l | reflexivity]. }
    destruct Hstep as (Hres & one & Hone & Hl).
    destruct (note_link link i w) as [[[]|e] i1 w1 ev1]; cbn [res locals] in Hres, Hl;
      [|discriminate Hres].
    cbv beta iota.
    destruct (IH i1 w1) as (Hres2 & added & Hadd & Hl2).
    destruct (for_each drv rest note_link i1 w1) as [r2 i2 w2 ev2].
    cbn [prepend res locals] in *.
    split; [exact Hres2|]. exists (one ++ added)%list.
    split; [rewrite length_app; cbn [List.length]; lia|].
    rewrite Hl2, Hl. cbn [clickable_count focusable_count form_count navigation_links
                           can_scroll]. rewrite app_assoc. reflexivity.
Qed.

Lemma interaction_summary_run (ctx : FrontendContext) (w : W drv) :
  exists i w' evs,
    _analyze_interactions drv ctx w =
    mkOut (Ok tt) (set_interactions (interactions_json i) ctx) w' evs /\
    form_count i = List.length (fc_forms ctx) /\
    (List.length (navigation_links i) <= 10)%nat /\
    match fst (drive drv (QuerySelectorAll clickable_query) w) with
    | Ok clickable => clickable_count i = List.length clickable
    | Raise _ =>
        clickable_count i = 0%nat /\ focusable_count i = 0%nat /\
        navigation_links i = [] /\ can_scroll i = false
    end.
Proof.
  unfold _analyze_interactions.
  rewrite (exec_bind drv). unfold get at 1. cbv beta iota.
  rewrite (exec_bind drv), (exec_scope drv), (exec_try_except drv).
  rewrite (exec_bind drv), (exec_call drv).
  destruct (drive drv (QuerySelectorAll clickable_query) w) as [[clickable|e] w1];
    cbv beta iota; cbn [fst].
  2:{ exec drv. eexists (mkInteractions _ _ _ _ _), _, _.
      split; [reflexivity|]. cbn.
      repeat split; apply Nat.le_0_l. }
  rewrite (exec_bind drv). unfold modify at 1. cbv beta iota.
  rewrite (exec_bind drv), (exec_call drv).
  destruct (drive drv (QuerySelectorAll focusable_query) w1) as [[focusable|e] w2];
    cbv beta iota.
  2:{ exec drv. eexists (mkInteractions _ _ _ _ _), _, _.
      split; [reflexivity|]. cbn.
      repeat split; apply Nat.le_0_l. }
  rewrite (exec_bind drv). unfold modify at 1. cbv beta iota.
  rewrite (exec_bind drv), (exec_call drv).
  destruct (drive drv EvalScrollHeight w2) as [[scroll_height|e] w3]; cbv beta iota.
  2:{ exec drv. eexists (mkInteractions _ _ _ _ _), _, _.
      split; [reflexivity|]. cbn.
      repeat split; apply Nat.le_0_l. }
  rewrite (exec_bind drv), (exec_call drv).
  destruct (drive drv EvalClientHeight w3) as [[client_height|e] w4]; cbv beta iota.
  2:{ exec drv. eexists (mkInteractions _ _ _ _ _), _, _.
      split; [reflexivity|]. cbn.
      repeat split; apply Nat.le_0_l. }
  rewrite (exec_bind drv). unfold modify at 1. cbv beta iota.
  rewrite (exec_bind drv), (exec_call drv).
  destruct (drive drv (QuerySelectorAll nav_links_query) w4) as [[nav_links|e] w5];
    cbv beta iota.
  2:{ exec drv. eexists (mkInteractions _ _ _ _ _), _, _.
      split; [reflexivity|]. cbn.
      repeat split; apply Nat.le_0_l. }
  cbn [prepend clickable_count focusable_count form_count navigation_links can_scroll].
  match goal with
  | |- context [for_each drv (firstn 10 nav_links) ?body ?i0 w5] =>
      change (for_each drv (firstn 10 nav_links) body i0 w5)
        with (for_each drv (firstn 10 nav_links) note_link i0 w5);
      destruct (note_links_loop (firstn 10 nav_links) i0 w5) as (Hres & added & Hadd & Hl);
      destruct (for_each drv (firstn 10 nav_links) note_link i0 w5)
        as [[[]|e] i1 w6 ev6]; cbn [res locals] in Hres, Hl; [|discriminate Hres]
  end.
  subst i1. exec drv.
  eexists (mkInteractions _ _ _ _ _), _, _.
  split; [reflexivity|].
  cbn [clickable_count focusable_count form_count navigation_links can_scroll app].
  split; [reflexivity|]. split; [|reflexivity].
  rewrite length_firstn in Hadd.
  eapply Nat.le_trans; [exact Hadd | apply Nat.le_min_l].
Qed.

(** X: [_analyze_interactions] never raises and changes nothing of the
    context but its [interactions] entry.  In that entry, [form_count]
    is the number of forms the context holds, whatever fails;
    [clickable_count] is the number of handles the first query
    returned, and when that query fails every other value stays at its
    initial one (0, 0, no link, not scrollable); and there are never
    more than ten navigation links. *)
Theorem interaction_summary_of_context (ctx : FrontendContext) (w : W drv) :
  let o := _analyze_interactions drv ctx w in
  exists i,
    res o = Ok tt /\
    locals o = set_interactions (interactions_json i) ctx /\
    form_count i = List.length (fc_forms ctx) /\
    (List.length (navigation_links i) <= 10)%nat /\
    match fst (drive drv (QuerySelectorAll clickable_query) w) with
    | Ok clickable => clickable_count i = List.length clickable
    | Raise _ =>
        clickable_count i = 0%nat /\ focusable_count i = 0%nat /\
        navigation_links i = [] /\ can_scroll i = false
    end.
Proof.
  intros o. subst o.
  destruct (interaction_summary_run ctx w) as (i & w' & evs & Heq & Hf & Hn & Hc).
  rewrite Heq. exists i. cbn [res locals].
  split; [reflexivity|]. split; [reflexivity|]. split; [exact Hf|]. split; assumption.
Qed.

End SummaryProofs.

(* ================================================================= *)
(** ** The records of _extract_dom_elements *)

(** What every record of [_extract_dom_elements] looks like. *)
Definition element_shape (e : DOMElement) : Prop :=
  In (de_tag e) important_tags /\
  match de_text e with
  | None => True
  | Some t => (1 <= String.length t <= 200)%nat
  end /\
  dict_get (de_attributes e) "class" = None /\
  de_xpath e = None /\
  de_selector e =
    (if truthy_str (de_id e) then Some ("#" ++ opt_str (de_id e))
     else match de_classes e with
          | [] => None
          | _ :: _ => Some (de_tag e ++ "." ++ String.concat "." (de_classes e))
          end).

Lemma substring_length (n : nat) (s : string) :
  String.length (substring 0 n s) = Nat.min n (String.length s).
Proof.
  revert s. induction n as [|n IH]; intros s.
  - destruct s; reflexivity.
  - destruct s as [|c s]; [reflexivity|]. cbn. rewrite IH. reflexivity.
Qed.

Lemma attributes_without_class (attrs : list (string * AttrVal)) :
  dict_get (map (fun kv => (fst kv, attr_str (snd kv)))
              (filter (fun kv => negb (String.eqb (fst kv) "class")) attrs)) "class"
  = None.
Proof.
  induction attrs as [|[k v] attrs IH]; [reflexivity|].
  cbn [filter fst]. destruct (String.eqb k "class") eqn:E; cbn [negb]; [exact IH|].
  cbn [map dict_get fst snd]. rewrite E. exact IH.
Qed.

Lemma dom_element_shape (tag_name : string) (element : Node) (e : DOMElement) :
  dom_element_of tag_name element = Ok e ->
  de_tag e = tag_name /\
  match de_text e with
  | None => True
  | Some t => (1 <= String.length t <= 200)%nat
  end /\
  dict_get (de_attributes e) "class" = None /\
  de_xpath e = None /\
  de_selector e =
    (if truthy_str (de_id e) then Some ("#" ++ opt_str (de_id e))
     else match de_classes e with
          | [] => None
          | _ :: _ => Some (de_tag e ++ "." ++ String.concat "." (de_classes e))
          end).
Proof.
  unfold dom_element_of, res_bind.
  destruct (as_opt_str "id" (node_get element "id")) as [id|ex]; [|discriminate].
  destruct (as_str_list "classes" (node_get element "class")) as [classes|ex];
    [|discriminate].
  intros H. injection H as <-.
  assert (Htext : match (if negb (String.eqb (get_text_strip element) EmptyString)
                         then Some (substring 0 200 (get_text_strip element)) else None)
                  with
                  | None => True
                  | Some t => (1 <= String.length t <= 200)%nat
                  end).
  { destruct (String.eqb (get_text_strip element) EmptyString) eqn:E; cbn [negb]; [exact I|].
    rewrite substring_length.
    destruct (get_text_strip element) as [|c s]; [discriminate E|].
    cbn [String.length]. lia. }
  destruct (truthy_str id) eqn:Hid.
  - cbn [set_selector de_tag de_text de_attributes de_xpath de_selector de_id de_classes].
    rewrite Hid. repeat split; try assumption. apply attributes_without_class.
  - destruct classes as [|c cs];
      cbn [set_selector de_tag de_text de_attributes de_xpath de_selector de_id de_classes];
      rewrite Hid; repeat split; try assumption; apply attributes_without_class.
Qed.

Lemma scan_order_origin (soup : Node) (tags : list string) (e : DOMElement) :
  In e (scan_order soup tags) ->
  exists tag_name element,
    In tag_name tags /\ In element (find_all soup [tag_name]) /\
    dom_element_of tag_name element = Ok e.
Proof.
  unfold scan_order, built_elements. intros H.
  apply in_flat_map in H. destruct H as (tag_name & Htag & H).
  apply in_flat_map in H. destruct H as (element & Hel & H).
  exists tag_name, element. split; [exact Htag|]. split; [exact Hel|].
  destruct (dom_element_of tag_name element) as [e'|ex]; [|destruct H].
  destruct H as [->|[]]. reflexivity.
Qed.

Section ShapeProofs.

Context (drv : Driver).

(** X: every record that [_extract_dom_elements] returns carries one of
    the scanned tag names; its text is missing or has between 1 and 200
    characters; its attributes have no [class] entry; its xpath is
    never filled in; and its selector is [#id] when the element has a
    non-empty id, else the tag name followed by the dotted classes when
    it has classes, else missing. *)
Theorem dom_elements_have_the_record_shape {L} (soup : Node) (l : L) (w : W drv) :
  exists elements,
    res (_extract_dom_elements drv soup l w) = Ok elements /\
    Forall element_shape elements.
Proof.
  exists (firstn 100 (scan_order soup important_tags)).
  split; [apply dom_elements_run|].
  apply Forall_firstn_keeps. apply Forall_forall. intros e He.
  destruct (scan_order_origin soup important_tags e He) as (tag_name & element & Htag & _ & Hb).
  destruct (dom_element_shape tag_name element e Hb) as (Ht & Htext & Hattr & Hx & Hsel).
  unfold element_shape. rewrite Ht.
  split; [exact Htag|]. split; [exact Htext|]. split; [exact Hattr|].
  split; [exact Hx|]. rewrite <- Ht. exact Hsel.
Qed.

End ShapeProofs.
